(** * Pseudonymizer: a shallow embedding of [pseudonymizer.py]

    The development follows the layout of the Python module: the runtime
    the module relies on (exceptions, [str] methods, [random.Random],
    [hashlib.sha256], Faker, the Presidio analyzer), then the constants,
    the dataclasses, [PolishIdentifierGenerator],
    [PolishIdentifierValidator] and [Pseudonymizer], and finally the
    properties proved about them. *)

From Stdlib Require Import ZArith List Lia String Ascii Bool QArith Sorted Permutation.
From stdpp Require Import gmap sorting.

Close Scope Q_scope.
Local Open Scope Z_scope.
Local Open Scope list_scope.

(** ** Exceptions *)

(** The exceptions the module can raise: [ValueError] ([int] on a string
    that is no decimal literal, an unsupported REGON length), [IndexError]
    (subscript out of range), [KeyError] (missing dictionary key),
    [UnicodeEncodeError] ([str.encode] on a lone surrogate) and
    [AttributeError] ([Faker(locale)] on a locale Faker does not have). *)
Inductive exn : Type :=
| ValueError
| IndexError
| KeyError
| UnicodeEncodeError
| AttributeError.

Inductive outcome (A : Type) : Type :=
| Ok (a : A)
| Raise (e : exn).

Arguments Ok {A} a.
Arguments Raise {A} e.

Definition bind {A B : Type} (m : outcome A) (k : A -> outcome B) : outcome B :=
  match m with
  | Ok a => k a
  | Raise e => Raise e
  end.

Notation "x <- m ;; k" := (bind m (fun x => k))
  (at level 100, m at next level, right associativity).

Definition returns {A : Type} (m : outcome A) : Prop := exists a, m = Ok a.

(** ** Python sequences *)

(** A Python [str] is a sequence of Unicode code points. *)
Abbreviation str := (list Z).

(** An ASCII literal as a [str]. *)
Definition lit (s : string) : str :=
  List.map (fun a => Z.of_nat (nat_of_ascii a)) (list_ascii_of_string s).

Definition len {A : Type} (s : list A) : Z := Z.of_nat (length s).

(** [range(n)] *)
Definition range (n : Z) : list Z := List.map Z.of_nat (seq 0 (Z.to_nat n)).

(** A slice bound [i] of a sequence of length [n]: negative bounds count from
    the end, and bounds are clipped to [0, n]. *)
Definition slice_bound (n i : Z) : Z :=
  if i <? 0 then Z.max 0 (i + n) else Z.min i n.

(** [s[lo:hi]], an omitted bound being [None]. *)
Definition slice {A : Type} (s : list A) (lo hi : option Z) : list A :=
  let n := len s in
  let a := match lo with Some i => slice_bound n i | None => 0 end in
  let b := match hi with Some j => slice_bound n j | None => n end in
  firstn (Z.to_nat (b - a)) (skipn (Z.to_nat a) s).

(** [s[i]]: a negative index counts from the end; out of range raises. *)
Definition getitem {A : Type} (s : list A) (i : Z) : outcome A :=
  let j := if i <? 0 then i + len s else i in
  if (0 <=? j) && (j <? len s) then
    match nth_error s (Z.to_nat j) with
    | Some x => Ok x
    | None => Raise IndexError
    end
  else Raise IndexError.

(** [s[i] = x] on a list. *)
Definition setitem {A : Type} (s : list A) (i : Z) (x : A) : outcome (list A) :=
  let j := if i <? 0 then i + len s else i in
  if (0 <=? j) && (j <? len s) then
    Ok (firstn (Z.to_nat j) s ++ x :: skipn (S (Z.to_nat j)) s)
  else Raise IndexError.

(** [sum(f(x) for x in xs)] *)
Fixpoint sum_for {A : Type} (xs : list A) (f : A -> outcome Z) : outcome Z :=
  match xs with
  | [] => Ok 0
  | x :: xs' => v <- f x ;; r <- sum_for xs' f ;; Ok (v + r)
  end.

(** [sep.join(parts)] *)
Fixpoint join (sep : str) (parts : list str) : str :=
  match parts with
  | [] => []
  | [p] => p
  | p :: ps => p ++ sep ++ join sep ps
  end.

(** [s.replace(old, new)] for a one-character [old]. *)
Definition replace (old : Z) (new : str) (s : str) : str :=
  flat_map (fun c => if c =? old then new else [c]) s.

(** [s * n] *)
Definition repeat_str (s : str) (n : Z) : str :=
  List.concat (List.repeat s (Z.to_nat n)).

(** ** Decimal rendering of integers *)

Definition digit_char (d : Z) : Z := 48 + d.

Fixpoint digits_fuel (fuel : nat) (n : Z) (acc : str) : str :=
  match fuel with
  | O => acc
  | S fuel' =>
      let acc' := digit_char (n mod 10) :: acc in
      if n <? 10 then acc' else digits_fuel fuel' (n / 10) acc'
  end.

(** The decimal digits of [n >= 0]; a number has at most [log2 n + 1] of
    them, which bounds the recursion. *)
Definition digits_of (n : Z) : str :=
  digits_fuel (S (Z.to_nat (Z.log2 n))) n [].

(** [str(n)] *)
Definition str_of_int (n : Z) : str :=
  if n <? 0 then 45 :: digits_of (- n) else digits_of n.

(** [f"{n:0{width}d}"]: sign-aware zero padding to at least [width]. *)
Definition format_0d (width : Z) (n : Z) : str :=
  let ds := digits_of (Z.abs n) in
  let sign := if n <? 0 then [45] else [] in
  sign ++ repeat_str [48] (width - len sign - len ds) ++ ds.

(** ** The Unicode character database *)

(** The per-character tables behind the [str] methods: the derived
    properties [White_Space], [Uppercase], [Lowercase], [Cased] and
    [Case_Ignorable], the titlecase letters, the full case mappings, and the
    numeric types ([uc_isdigit]: [Numeric_Type] is [Digit] or [Decimal];
    [uc_decimal]: the value when it is [Decimal]). *)
Class UnicodeData : Type := {
  uc_isspace : Z -> bool;
  uc_isupper : Z -> bool;
  uc_islower : Z -> bool;
  uc_istitle : Z -> bool;
  uc_iscased : Z -> bool;
  uc_iscase_ignorable : Z -> bool;
  uc_toupper : Z -> str;
  uc_tolower : Z -> str;
  uc_totitle : Z -> str;
  uc_isdigit : Z -> bool;
  uc_decimal : Z -> option Z;
}.

(** The only facts about the database the proofs rely on: the ASCII digits
    are decimal digits with their usual values. *)
Definition ascii_digits_decimal (U : UnicodeData) : Prop :=
  forall d, 0 <= d <= 9 ->
    uc_isdigit (digit_char d) = true /\ uc_decimal (digit_char d) = Some d.

Section StrMethods.
Context {U : UnicodeData}.

(** [s.isdigit()] *)
Definition isdigit (s : str) : bool :=
  match s with
  | [] => false
  | _ => forallb uc_isdigit s
  end.

(** [int(c)] for a one-character string [c]: defined on the decimal
    digits only (a sign, a space or an underscore alone is no literal). *)
Definition int_of_char (c : Z) : outcome Z :=
  match uc_decimal c with
  | Some d => Ok d
  | None => Raise ValueError
  end.

Fixpoint cased_scan (bad good : Z -> bool) (cased : bool) (s : str) : bool :=
  match s with
  | [] => cased
  | ch :: s' =>
      if bad ch then false
      else cased_scan bad good (cased || good ch) s'
  end.

(** [s.isupper()]: no lowercase or titlecase character and at least one
    uppercase one. *)
Definition isupper (s : str) : bool :=
  match s with
  | [ch] => uc_isupper ch
  | _ => cased_scan (fun ch => uc_islower ch || uc_istitle ch) uc_isupper false s
  end.

(** [s.islower()] *)
Definition islower (s : str) : bool :=
  match s with
  | [ch] => uc_islower ch
  | _ => cased_scan (fun ch => uc_isupper ch || uc_istitle ch) uc_islower false s
  end.

(** [s.upper()] *)
Definition upper (s : str) : str := flat_map uc_toupper s.

(** The first character of [s] that is not case-ignorable. *)
Fixpoint skip_ignorable (s : str) : option Z :=
  match s with
  | [] => None
  | c :: s' => if uc_iscase_ignorable c then skip_ignorable s' else Some c
  end.

(** Lowercasing a capital sigma (U+03A3) depends on its context:
    [before] holds the characters before it, nearest first. *)
Definition lower_sigma (before after : str) : Z :=
  let final_sigma :=
    match skip_ignorable before with
    | Some c =>
        uc_iscased c &&
        match skip_ignorable after with
        | Some c' => negb (uc_iscased c')
        | None => true
        end
    | None => false
    end in
  if final_sigma then 962 else 963.

Fixpoint lower_from (before s : str) : str :=
  match s with
  | [] => []
  | c :: s' =>
      (if c =? 931 then [lower_sigma before s'] else uc_tolower c)
      ++ lower_from (c :: before) s'
  end.

(** [s.lower()] *)
Definition lower (s : str) : str := lower_from [] s.

(** [s.capitalize()]: the first character in titlecase, the rest in
    lowercase. *)
Definition capitalize (s : str) : str :=
  match s with
  | [] => []
  | c :: s' => uc_totitle c ++ lower_from [c] s'
  end.

(** [s.split()]: the maximal runs of non-whitespace characters. *)
Fixpoint split_from (word : str) (s : str) : list str :=
  match s with
  | [] => match word with [] => [] | _ => [rev word] end
  | c :: s' =>
      if uc_isspace c then
        match word with
        | [] => split_from [] s'
        | _ => rev word :: split_from [] s'
        end
      else split_from (c :: word) s'
  end.

Definition split (s : str) : list str := split_from [] s.

Fixpoint lstrip (s : str) : str :=
  match s with
  | [] => []
  | c :: s' => if uc_isspace c then lstrip s' else s
  end.

(** [s.strip()] *)
Definition strip (s : str) : str := rev (lstrip (rev (lstrip s))).

End StrMethods.

(** ** [random.Random] *)

(** The generator is used through [Random(seed)] and [randint] only; the
    state is threaded explicitly. *)
Class PyRandom : Type := {
  RandomState : Type;
  Random : Z -> RandomState;
  randint : RandomState -> Z -> Z -> Z * RandomState;
}.

(** [randint(a, b)] returns an integer [N] with [a <= N <= b]. *)
Definition randint_in_range (R : PyRandom) : Prop :=
  forall (st : RandomState) (a b : Z), a <= b -> a <= fst (randint st a b) <= b.

(** [[rng.randint(a, b) for _ in range(n)]] *)
Fixpoint randints {R : PyRandom} (n : nat) (st : RandomState) (a b : Z)
  : list Z * RandomState :=
  match n with
  | O => ([], st)
  | S n' =>
      let '(x, st1) := randint st a b in
      let '(xs, st2) := randints n' st1 a b in
      (x :: xs, st2)
  end.

(** ** Constants *)

Definition CASE_SENSITIVE_ENTITIES : list str :=
  [lit "PERSON"; lit "ORGANIZATION"; lit "LOCATION"].

Definition PESEL_WEIGHTS : list Z := [1; 3; 7; 9; 1; 3; 7; 9; 1; 3].
Definition NIP_WEIGHTS : list Z := [6; 5; 7; 2; 3; 4; 5; 6; 7].
Definition REGON_9_WEIGHTS : list Z := [8; 9; 2; 3; 4; 5; 6; 7].
Definition REGON_14_WEIGHTS : list Z := [2; 4; 8; 5; 0; 9; 7; 3; 6; 1; 2; 4; 8].

(** ** [PolishIdentifierGenerator] *)

Section PolishIdentifierGenerator.
Context {U : UnicodeData} {R : PyRandom}.

Definition generate_pesel (seed : Z) : outcome str :=
  let rng := Random seed in
  let '(year, rng) := randint rng 50 99 in
  let '(month, rng) := randint rng 1 12 in
  let '(day, rng) := randint rng 1 28 in
  let '(serial, rng) := randint rng 0 999 in
  let '(gender, rng) := randint rng 0 9 in
  let pesel_10 :=
    format_0d 2 year ++ format_0d 2 month ++ format_0d 2 day
    ++ format_0d 3 serial ++ str_of_int gender in
  checksum <- sum_for (range 10) (fun i =>
    c <- getitem pesel_10 i ;; d <- int_of_char c ;;
    w <- getitem PESEL_WEIGHTS i ;; Ok (d * w)) ;;
  let control_digit := (10 - checksum mod 10) mod 10 in
  Ok (pesel_10 ++ str_of_int control_digit).

(** [sum(nip_9[i] * NIP_WEIGHTS[i] for i in range(9))] *)
Definition nip_checksum (nip_9 : list Z) : outcome Z :=
  sum_for (range 9) (fun i =>
    d <- getitem nip_9 i ;; w <- getitem NIP_WEIGHTS i ;; Ok (d * w)).

Definition generate_nip (seed : Z) (formatted : bool) : outcome str :=
  let rng := Random seed in
  let '(nip_9, rng) := randints 9 rng 0 9 in
  checksum <- nip_checksum nip_9 ;;
  let control_digit := checksum mod 11 in
  repaired <-
    (if control_digit =? 10 then
       d8 <- getitem nip_9 8 ;;
       nip_9 <- setitem nip_9 8 ((d8 + 1) mod 10) ;;
       checksum <- nip_checksum nip_9 ;;
       let control_digit := checksum mod 11 in
       let control_digit := if control_digit =? 10 then 0 else control_digit in
       Ok (nip_9, control_digit)
     else Ok (nip_9, control_digit)) ;;
  let '(nip_9, control_digit) := repaired in
  let nip_str := join [] (List.map str_of_int (nip_9 ++ [control_digit])) in
  if formatted then
    Ok (slice nip_str None (Some 3) ++ lit "-" ++ slice nip_str (Some 3) (Some 6)
        ++ lit "-" ++ slice nip_str (Some 6) (Some 8)
        ++ lit "-" ++ slice nip_str (Some 8) (Some 10))
  else Ok nip_str.

Definition generate_regon (seed : Z) (length : Z) : outcome str :=
  if negb ((length =? 9) || (length =? 14)) then Raise ValueError
  else
    let rng := Random seed in
    let weights := if length =? 9 then REGON_9_WEIGHTS else REGON_14_WEIGHTS in
    let digits_count := length - 1 in
    let '(digits, rng) := randints (Z.to_nat digits_count) rng 0 9 in
    checksum <- sum_for (range digits_count) (fun i =>
      d <- getitem digits i ;; w <- getitem weights i ;; Ok (d * w)) ;;
    let control_digit := checksum mod 11 in
    let control_digit := if control_digit =? 10 then 0 else control_digit in
    Ok (join [] (List.map str_of_int digits) ++ str_of_int control_digit).

End PolishIdentifierGenerator.

(** ** [PolishIdentifierValidator] *)

Section PolishIdentifierValidator.
Context {U : UnicodeData}.

Definition validate_pesel (pesel : str) : outcome bool :=
  let pesel_clean := replace 45 [] (replace 32 [] pesel) in
  if negb (len pesel_clean =? 11) || negb (isdigit pesel_clean) then Ok false
  else
    checksum <- sum_for (range 10) (fun i =>
      c <- getitem pesel_clean i ;; d <- int_of_char c ;;
      w <- getitem PESEL_WEIGHTS i ;; Ok (d * w)) ;;
    let control := (10 - checksum mod 10) mod 10 in
    c <- getitem pesel_clean 10 ;; last <- int_of_char c ;;
    Ok (control =? last).

Definition validate_nip (nip : str) : outcome bool :=
  let nip_clean := replace 32 [] (replace 45 [] nip) in
  if negb (len nip_clean =? 10) || negb (isdigit nip_clean) then Ok false
  else
    checksum <- sum_for (range 9) (fun i =>
      c <- getitem nip_clean i ;; d <- int_of_char c ;;
      w <- getitem NIP_WEIGHTS i ;; Ok (d * w)) ;;
    let control := checksum mod 11 in
    if negb (control =? 10) then
      c <- getitem nip_clean 9 ;; last <- int_of_char c ;;
      Ok (control =? last)
    else Ok false.

Definition validate_regon (regon : str) : outcome bool :=
  let regon_clean := replace 45 [] (replace 32 [] regon) in
  if negb (isdigit regon_clean) then Ok false
  else
    weights <-
      (if len regon_clean =? 9 then Ok (Some REGON_9_WEIGHTS)
       else if len regon_clean =? 14 then Ok (Some REGON_14_WEIGHTS)
       else Ok None) ;;
    match weights with
    | None => Ok false
    | Some weights =>
        checksum <- sum_for (range (len weights)) (fun i =>
          c <- getitem regon_clean i ;; d <- int_of_char c ;;
          w <- getitem weights i ;; Ok (d * w)) ;;
        let control := checksum mod 11 in
        let control := if control =? 10 then 0 else control in
        c <- getitem regon_clean (-1) ;; last <- int_of_char c ;;
        Ok (control =? last)
    end.

End PolishIdentifierValidator.

(** ** [sorted] *)

(** [sorted(xs, key=key, reverse=reverse)] is a stable sort that compares
    keys with [<] only; with [reverse] the order of the keys is reversed and
    elements with equal keys still keep their input order.  The stable
    sorted arrangement of a list is unique, so insertion gives it. *)
Section Sorted.
Context {A K : Type} (ltb : K -> K -> bool) (key : A -> K) (reverse : bool).

(** [x] comes before every element of [l] in the input. *)
Fixpoint sorted_insert (x : A) (l : list A) : list A :=
  match l with
  | [] => [x]
  | y :: l' =>
      if (if reverse then ltb (key x) (key y) else ltb (key y) (key x))
      then y :: sorted_insert x l'
      else x :: l
  end.

Definition sorted (l : list A) : list A := fold_right sorted_insert [] l.
End Sorted.

Definition Qltb (x y : Q) : bool := negb (Qle_bool y x).

(** ** [hashlib.sha256] *)

Module SHA256.

Definition word (x : Z) : Z := x mod 2 ^ 32.
Definition add (x y : Z) : Z := word (x + y).
Definition rotr (n x : Z) : Z :=
  Z.lor (Z.shiftr x n) (word (Z.shiftl x (32 - n))).
Definition xor3 (x y z : Z) : Z := Z.lxor (Z.lxor x y) z.

Definition Ch (x y z : Z) : Z := Z.lxor (Z.land x y) (Z.ldiff z x).
Definition Maj (x y z : Z) : Z :=
  xor3 (Z.land x y) (Z.land x z) (Z.land y z).
Definition Sigma0 (x : Z) : Z := xor3 (rotr 2 x) (rotr 13 x) (rotr 22 x).
Definition Sigma1 (x : Z) : Z := xor3 (rotr 6 x) (rotr 11 x) (rotr 25 x).
Definition sigma0 (x : Z) : Z := xor3 (rotr 7 x) (rotr 18 x) (Z.shiftr x 3).
Definition sigma1 (x : Z) : Z := xor3 (rotr 17 x) (rotr 19 x) (Z.shiftr x 10).

(** The first 64 primes. *)
Definition primes : list Z :=
  List.filter
    (fun n => forallb (fun d => negb (n mod (d + 2) =? 0)) (range (n - 2)))
    (List.map (Z.add 2) (range 310)).

(** The integer cube root of [n], found bit by bit from bit [k] down. *)
Fixpoint cube_root (k : nat) (n r : Z) : Z :=
  match k with
  | O => r
  | S k' =>
      let r' := r + 2 ^ Z.of_nat k' in
      cube_root k' n (if r' * r' * r' <=? n then r' else r)
  end.

(** The round constants: the first 32 bits of the fractional parts of the
    cube roots of the first 64 primes. *)
Definition K : list Z :=
  Eval vm_compute in
    List.map (fun p => word (cube_root 40 (p * 2 ^ 96) 0)) primes.

Definition state : Type := Z * Z * Z * Z * Z * Z * Z * Z.

(** The initial hash value: the first 32 bits of the fractional parts of the
    square roots of the first 8 primes. *)
Definition H0 : state :=
  Eval vm_compute in
    match List.map (fun p => word (Z.sqrt (p * 2 ^ 64))) (firstn 8 primes) with
    | [a; b; c; d; e; f; g; h] => (a, b, c, d, e, f, g, h)
    | _ => (0, 0, 0, 0, 0, 0, 0, 0)
    end.

(** The message with the bit 1, zero bytes up to 56 modulo 64, and its
    length in bits on 8 bytes. *)
Definition be_bytes (n : nat) (x : Z) : list Z :=
  List.map (fun i => (x / 256 ^ Z.of_nat i) mod 256) (rev (seq 0 n)).

Definition pad (msg : list Z) : list Z :=
  let l := len msg in
  msg ++ [128] ++ List.repeat 0 (Z.to_nat ((55 - l) mod 64))
      ++ be_bytes 8 (8 * l).

Fixpoint be_words (n : nat) (bytes : list Z) : list Z :=
  match n, bytes with
  | S n', b0 :: b1 :: b2 :: b3 :: rest =>
      (((b0 * 256 + b1) * 256 + b2) * 256 + b3) :: be_words n' rest
  | _, _ => []
  end.

(** The message schedule, latest word first. *)
Fixpoint schedule (n : nat) (w : list Z) : list Z :=
  match n with
  | O => w
  | S n' =>
      let wt := add (add (sigma1 (nth 1 w 0)) (nth 6 w 0))
                    (add (sigma0 (nth 14 w 0)) (nth 15 w 0)) in
      schedule n' (wt :: w)
  end.

Definition round (st : state) (kw : Z * Z) : state :=
  let '(a, b, c, d, e, f, g, h) := st in
  let t1 := add (add (add h (Sigma1 e)) (add (Ch e f g) (fst kw))) (snd kw) in
  let t2 := add (Sigma0 a) (Maj a b c) in
  (add t1 t2, a, b, c, add d t1, e, f, g).

Definition compress (st : state) (block : list Z) : state :=
  let w := rev (schedule 48 (rev (be_words 16 block))) in
  let '(a, b, c, d, e, f, g, h) := fold_left round (combine K w) st in
  let '(a0, b0, c0, d0, e0, f0, g0, h0) := st in
  (add a0 a, add b0 b, add c0 c, add d0 d,
   add e0 e, add f0 f, add g0 g, add h0 h).

Fixpoint blocks (n : nat) (bytes : list Z) : list (list Z) :=
  match n with
  | O => []
  | S n' => firstn 64 bytes :: blocks n' (skipn 64 bytes)
  end.

(** [hashlib.sha256(msg).digest()]: 32 bytes. *)
Definition digest (msg : list Z) : list Z :=
  let padded := pad msg in
  let '(a, b, c, d, e, f, g, h) :=
    fold_left compress (blocks (length padded / 64) padded) H0 in
  flat_map (be_bytes 4) [a; b; c; d; e; f; g; h].

Definition hex_char (d : Z) : Z := if d <? 10 then 48 + d else 87 + d.

(** [hashlib.sha256(msg).hexdigest()] *)
Definition hexdigest (msg : list Z) : str :=
  flat_map (fun b => [hex_char (b / 16); hex_char (b mod 16)]) (digest msg).

End SHA256.

(** [s.encode("utf-8")]: surrogates (and values that are no code points)
    cannot be encoded. *)
Definition encode_char (c : Z) : outcome (list Z) :=
  if (c <? 0) || (0x10FFFF <? c) then Raise UnicodeEncodeError
  else if c <? 0x80 then Ok [c]
  else if c <? 0x800 then Ok [0xC0 + c / 64; 0x80 + c mod 64]
  else if (0xD800 <=? c) && (c <=? 0xDFFF) then Raise UnicodeEncodeError
  else if c <? 0x10000 then
    Ok [0xE0 + c / 4096; 0x80 + (c / 64) mod 64; 0x80 + c mod 64]
  else
    Ok [0xF0 + c / 262144; 0x80 + (c / 4096) mod 64;
        0x80 + (c / 64) mod 64; 0x80 + c mod 64].

Fixpoint encode_utf8 (s : str) : outcome (list Z) :=
  match s with
  | [] => Ok []
  | c :: s' => b <- encode_char c ;; bs <- encode_utf8 s' ;; Ok (b ++ bs)
  end.

Definition hex_value (c : Z) : option Z :=
  if (48 <=? c) && (c <=? 57) then Some (c - 48)
  else if (97 <=? c) && (c <=? 102) then Some (c - 87)
  else if (65 <=? c) && (c <=? 70) then Some (c - 55)
  else None.

Fixpoint int_hex_from (acc : Z) (s : str) : outcome Z :=
  match s with
  | [] => Ok acc
  | c :: s' =>
      match hex_value c with
      | Some d => int_hex_from (16 * acc + d) s'
      | None => Raise ValueError
      end
  end.

(** [int(s, 16)] for a string of hexadecimal digits (the prefix, sign,
    underscore and surrounding whitespace [int] also reads do not occur in a
    hex digest). *)
Definition int_base16 (s : str) : outcome Z :=
  match s with
  | [] => Raise ValueError
  | _ => int_hex_from 0 s
  end.

(** ** Faker and the Presidio analyzer *)

(** The provider methods [_generate_replacement] can call. *)
Inductive FakerMethod : Type :=
| fake_name
| fake_company
| fake_email
| fake_phone_number
| fake_bothify (pattern : str)
| fake_numerify (pattern : str)
| fake_iban
| fake_credit_card_number
| fake_ipv4
| fake_url
| fake_date
| fake_city.

(** The Faker library.  [Faker(locale)] builds a generator only for a locale
    the library has ([faker_available]) and raises [AttributeError] for any
    other; [faker_call locale seed m] is the value of method [m] on the
    generator of [locale] after [seed_instance(seed)]. *)
Class Faker : Type := {
  faker_available : str -> bool;
  faker_call : str -> Z -> FakerMethod -> str;
}.

(** ** Dataclasses *)

Module RecognizerResult.
Record t : Type := mk {
  entity_type : str;
  start : Z;
  end_ : Z;
  score : Q;
}.
End RecognizerResult.

Module Replacement.
Record t : Type := mk {
  start : Z;
  end_ : Z;
  original : str;
  replacement : str;
  entity_type : str;
  score : Q;
}.
End Replacement.

Module PseudonymizationResult.
Record t : Type := mk {
  original_text : str;
  pseudonymized_text : str;
  replacements : list Replacement.t;
}.

Definition entities_found (self : t) : Z := len (replacements self).

Definition entity_types (self : t) : gset str :=
  list_to_set (List.map Replacement.entity_type (replacements self)).
End PseudonymizationResult.

(** [AnalyzerEngine.analyze(text=text, language=language)] *)
Class AnalyzerEngine : Type := {
  analyzer_analyze : str -> str -> list RecognizerResult.t;
}.

(** ** [Pseudonymizer] *)

(** The attributes [__init__] stores; the analyzer it builds from the
    configuration files is the [AnalyzerEngine] in the context. *)
Record Pseudonymizer : Type := {
  language : str;
  salt : str;
  locale : str;
}.

(** [all(f(x) for x in xs)] *)
Fixpoint all_for {A : Type} (xs : list A) (f : A -> outcome bool) : outcome bool :=
  match xs with
  | [] => Ok true
  | x :: xs' => b <- f x ;; if b : bool then all_for xs' f else Ok false
  end.

(** [d.get(k)] on a dictionary literal with distinct keys. *)
Fixpoint dict_get {V : Type} (k : str) (d : list (str * V)) : option V :=
  match d with
  | [] => None
  | (k', v) :: d' => if bool_decide (k' = k) then Some v else dict_get k d'
  end.

(** A loop [for x in xs: st = body(st, x)] in which [body] may raise. *)
Fixpoint for_each {S A : Type} (xs : list A) (body : S -> A -> outcome S) (st : S)
  : outcome S :=
  match xs with
  | [] => Ok st
  | x :: xs' => st' <- body st x ;; for_each xs' body st'
  end.

Section Pseudonymizer.
Context {U : UnicodeData} {R : PyRandom} {F : Faker} {E : AnalyzerEngine}.
Variable self : Pseudonymizer.

Definition _compute_seed (value entity_type : str) : outcome Z :=
  let data := salt self ++ lower value ++ entity_type in
  encoded <- encode_utf8 data ;;
  let hash_hex := SHA256.hexdigest encoded in
  int_base16 (slice hash_hex None (Some 16)).

(** [fake = Faker(self.locale); fake.seed_instance(seed)]; the result stands
    for the seeded generator, as the function from its methods to their
    values. *)
Definition _create_faker (seed : Z) : outcome (FakerMethod -> str) :=
  if faker_available (locale self)
  then Ok (faker_call (locale self) seed)
  else Raise AttributeError.

Definition _generate_replacement (original entity_type : str) : outcome str :=
  seed <- _compute_seed original entity_type ;;
  fake <- _create_faker seed ;;
  let generators : list (str * (unit -> outcome str)) :=
    [ (lit "PERSON", fun _ => Ok (fake fake_name));
      (lit "ORGANIZATION", fun _ => Ok (fake fake_company));
      (lit "EMAIL_ADDRESS", fun _ => Ok (fake fake_email));
      (lit "PHONE_NUMBER", fun _ => Ok (fake fake_phone_number));
      (lit "PL_PHONE", fun _ => Ok (fake fake_phone_number));
      (lit "PL_PESEL", fun _ => generate_pesel seed);
      (lit "PL_NIP", fun _ => generate_nip seed true);
      (lit "PL_REGON", fun _ =>
         generate_regon seed
           (if 9 <? len (replace 45 [] (replace 32 [] original))
            then 14 else 9));
      (lit "PL_ID_CARD", fun _ =>
         Ok (upper (fake (fake_bothify (lit "???######")))));
      (lit "PL_PASSPORT", fun _ =>
         Ok (upper (fake (fake_bothify (lit "??#######")))));
      (lit "PL_POSTAL_CODE", fun _ => Ok (fake (fake_numerify (lit "##-###"))));
      (lit "PL_BANK_ACCOUNT", fun _ =>
         Ok (fake (fake_numerify (lit "## #### #### #### #### #### ####"))));
      (lit "IBAN_CODE", fun _ => Ok (fake fake_iban));
      (lit "CREDIT_CARD", fun _ => Ok (fake fake_credit_card_number));
      (lit "IP_ADDRESS", fun _ => Ok (fake fake_ipv4));
      (lit "URL", fun _ => Ok (fake fake_url));
      (lit "DATE_TIME", fun _ => Ok (fake fake_date));
      (lit "LOCATION", fun _ => Ok (fake fake_city)) ] in
  match dict_get entity_type generators with
  | Some generator => generator tt
  | None => Ok (repeat_str (lit "*") (len original))
  end.

Definition _match_casing (source replacement : str) : outcome str :=
  if isupper source then Ok (upper replacement)
  else
    let words := split source in
    title <-
      (match words with
       | [] => Ok false
       | _ =>
           all_for (List.filter (fun w => 1 <? len w) words) (fun w =>
             c <- getitem w 0 ;;
             Ok (isupper [c] && islower (slice w (Some 1) None)))
       end) ;;
    if title : bool then
      Ok (join (lit " ")
            (List.map (fun w => match w with [] => w | _ => capitalize w end)
               (split replacement)))
    else Ok replacement.

(** [not (result.end <= accepted.start or result.start >= accepted.end)] *)
Definition overlaps (result accepted : RecognizerResult.t) : bool :=
  negb ((RecognizerResult.end_ result <=? RecognizerResult.start accepted)
        || (RecognizerResult.start result >=? RecognizerResult.end_ accepted)).

(** The body of the loop over [sorted_results]. *)
Definition filter_step (filtered : list RecognizerResult.t)
    (result : RecognizerResult.t) : list RecognizerResult.t :=
  let is_overlapping := existsb (fun accepted => overlaps result accepted) filtered in
  if negb is_overlapping then filtered ++ [result] else filtered.

Definition _filter_overlapping (results : list RecognizerResult.t)
  : list RecognizerResult.t :=
  match results with
  | [] => []
  | _ =>
      let sorted_results := sorted Qltb RecognizerResult.score true results in
      fold_left filter_step sorted_results []
  end.

Definition analyze (text : str) : list RecognizerResult.t :=
  let results := analyzer_analyze text (language self) in
  _filter_overlapping results.

(** The body of the loop preparing the replacements; the state is
    [(replacements, mapping)]. *)
Definition prepare_step (text : str)
    (st : list Replacement.t * gmap (str * str) str)
    (result : RecognizerResult.t)
  : outcome (list Replacement.t * gmap (str * str) str) :=
  let '(replacements, mapping) := st in
  let original :=
    slice text (Some (RecognizerResult.start result))
               (Some (RecognizerResult.end_ result)) in
  let key := (lower (strip original), RecognizerResult.entity_type result) in
  mapping <-
    (match mapping !! key with
     | None =>
         replacement_text <-
           _generate_replacement original (RecognizerResult.entity_type result) ;;
         replacement_text <-
           (if bool_decide (RecognizerResult.entity_type result
                            ∈ CASE_SENSITIVE_ENTITIES)
            then _match_casing original replacement_text
            else Ok replacement_text) ;;
         Ok (<[key := replacement_text]> mapping)
     | Some _ => Ok mapping
     end) ;;
  cached <- (match mapping !! key with
             | Some v => Ok v
             | None => Raise KeyError
             end) ;;
  Ok (replacements ++
        [Replacement.mk (RecognizerResult.start result)
           (RecognizerResult.end_ result) original cached
           (RecognizerResult.entity_type result)
           (RecognizerResult.score result)],
      mapping).

(** [new_text[: repl.start] + repl.replacement + new_text[repl.end :]] *)
Definition splice (new_text : str) (repl : Replacement.t) : str :=
  slice new_text None (Some (Replacement.start repl))
  ++ Replacement.replacement repl
  ++ slice new_text (Some (Replacement.end_ repl)) None.

(** The loop applying the replacements from the end of the text. *)
Definition apply_replacements (text : str) (replacements : list Replacement.t)
  : str :=
  fold_left splice (sorted Z.ltb Replacement.start true replacements) text.

Definition pseudonymize_with_details (text : str)
  : outcome PseudonymizationResult.t :=
  let results := analyze text in
  st <- for_each results (prepare_step text) ([], ∅) ;;
  let '(replacements, mapping) := st in
  let new_text := apply_replacements text replacements in
  Ok (PseudonymizationResult.mk text new_text replacements).

Definition pseudonymize (text : str) : outcome str :=
  r <- pseudonymize_with_details text ;;
  Ok (PseudonymizationResult.pseudonymized_text r).

End Pseudonymizer.

(** ** Concrete collaborators for the examples *)

(** The Unicode character database on Basic Latin, Latin-1 Supplement and
    Latin Extended-A (U+0000 to U+017F), the blocks Polish text is written
    in; code points above U+017F are classed as uncased, and as neither
    digits nor whitespace, and the examples use none. *)
Module Latin.
Definition between (lo hi c : Z) : bool := (lo <=? c) && (c <=? hi).

Definition isspace (c : Z) : bool :=
  between 0x09 0x0D c || between 0x1C 0x20 c || (c =? 0x85) || (c =? 0xA0).

Definition isupper (c : Z) : bool :=
  between 0x41 0x5A c || between 0xC0 0xD6 c || between 0xD8 0xDE c
  || (Z.even c && (between 0x100 0x136 c || between 0x14A 0x176 c))
  || (Z.odd c && (between 0x139 0x147 c || between 0x179 0x17D c))
  || (c =? 0x178).

Definition islower (c : Z) : bool :=
  between 0x61 0x7A c || (c =? 0xAA) || (c =? 0xB5) || (c =? 0xBA)
  || between 0xDF 0xF6 c || between 0xF8 0xFF c
  || (Z.odd c && (between 0x101 0x137 c || between 0x14B 0x177 c))
  || (Z.even c && (between 0x13A 0x148 c || between 0x17A 0x17E c))
  || (c =? 0x138) || (c =? 0x149) || (c =? 0x17F).

Definition iscase_ignorable (c : Z) : bool :=
  bool_decide (c ∈ [0x27; 0x2E; 0x3A; 0x5E; 0x60; 0xA8; 0xAD; 0xAF; 0xB4;
                    0xB7; 0xB8]).

Definition toupper (c : Z) : str :=
  if c =? 0xB5 then [0x39C]
  else if c =? 0xDF then [0x53; 0x53]
  else if c =? 0xFF then [0x178]
  else if c =? 0x131 then [0x49]
  else if c =? 0x138 then [c]
  else if c =? 0x149 then [0x2BC; 0x4E]
  else if c =? 0x17F then [0x53]
  else if between 0x61 0x7A c || between 0xE0 0xF6 c || between 0xF8 0xFE c
  then [c - 32]
  else if between 0x100 0x17F c && islower c then [c - 1]
  else [c].

Definition tolower (c : Z) : str :=
  if c =? 0x130 then [0x69; 0x307]
  else if c =? 0x178 then [0xFF]
  else if isupper c then (if c <? 0x100 then [c + 32] else [c + 1])
  else [c].

Definition totitle (c : Z) : str :=
  if c =? 0xDF then [0x53; 0x73] else toupper c.

Definition isdigit (c : Z) : bool :=
  between 0x30 0x39 c || (c =? 0xB2) || (c =? 0xB3) || (c =? 0xB9).

Definition decimal (c : Z) : option Z :=
  if between 0x30 0x39 c then Some (c - 48) else None.
End Latin.

Definition latin_ucd : UnicodeData := {|
  uc_isspace := Latin.isspace;
  uc_isupper := Latin.isupper;
  uc_islower := Latin.islower;
  uc_istitle := fun _ => false;
  uc_iscased := fun c => Latin.isupper c || Latin.islower c;
  uc_iscase_ignorable := Latin.iscase_ignorable;
  uc_toupper := Latin.toupper;
  uc_tolower := Latin.tolower;
  uc_totitle := Latin.totitle;
  uc_isdigit := Latin.isdigit;
  uc_decimal := Latin.decimal;
|}.

(** A linear congruential generator standing in for the Mersenne Twister. *)
Definition lcg : PyRandom := {|
  RandomState := Z;
  Random := fun seed => Z.abs seed mod 2 ^ 31;
  randint := fun st a b =>
    let st' := (1103515245 * st + 12345) mod 2 ^ 31 in
    (a + (st' / 65536) mod (b - a + 1), st');
|}.

(** A provider for the locales [pl_PL] and [en_US] with one value per
    method; patterns have [#] replaced by a digit drawn from the seed and [?]
    by a letter. *)
Definition sample_faker : Faker := {|
  faker_available := fun locale =>
    bool_decide (locale = lit "pl_PL") || bool_decide (locale = lit "en_US");
  faker_call := fun _ seed m =>
    let fill := List.map (fun c =>
      if c =? 35 then digit_char (seed mod 10)
      else if c =? 63 then 97 + seed mod 26 else c) in
    match m with
    | fake_name => lit "tadeusz elwart"
    | fake_company => lit "drutex"
    | fake_email => lit "user@example.com"
    | fake_phone_number => fill (lit "+48 ### ### ###")
    | fake_bothify p => fill p
    | fake_numerify p => fill p
    | fake_iban => fill (lit "PL##########################")
    | fake_credit_card_number => fill (lit "################")
    | fake_ipv4 => lit "192.0.2.1"
    | fake_url => lit "https://example.com/"
    | fake_date => lit "2001-01-01"
    | fake_city => lit "gdynia"
    end;
|}.

(** An analyzer that reports the given detections for every text. *)
Definition fixed_analyzer (results : list RecognizerResult.t) : AnalyzerEngine := {|
  analyzer_analyze := fun _ _ => results;
|}.

Definition sample_self : Pseudonymizer := {|
  language := lit "pl";
  salt := lit "moj-sekret";
  locale := lit "pl_PL";
|}.

(** ** Digit strings and control digits *)

Definition is_digit (d : Z) : Prop := 0 <= d <= 9.

(** The string of the ASCII digits [ds]. *)
Definition render (ds : list Z) : str := List.map digit_char ds.

(** The sum of [digit[i] * weight[i]] over the weight vector. *)
Fixpoint weighted_sum (weights ds : list Z) : Z :=
  match weights, ds with
  | w :: weights', d :: ds' => d * w + weighted_sum weights' ds'
  | _, _ => 0
  end.

Definition pesel_control (ds : list Z) : Z :=
  (10 - weighted_sum PESEL_WEIGHTS ds mod 10) mod 10.

Definition nip_control (ds : list Z) : Z := weighted_sum NIP_WEIGHTS ds mod 11.

Definition regon_weights (length : Z) : list Z :=
  if length =? 9 then REGON_9_WEIGHTS else REGON_14_WEIGHTS.

Definition regon_control (length : Z) (ds : list Z) : Z :=
  let control := weighted_sum (regon_weights length) ds mod 11 in
  if control =? 10 then 0 else control.

(** [s[i]] for a natural index. *)
Definition item {A : Type} (s : list A) (k : nat) : outcome A :=
  match nth_error s k with
  | Some x => Ok x
  | None => Raise IndexError
  end.

(** The rendering [XXX-XXX-XX-XX] of a NIP. *)
Definition nip_grouped (nip_str : str) : str :=
  slice nip_str None (Some 3) ++ lit "-" ++ slice nip_str (Some 3) (Some 6)
  ++ lit "-" ++ slice nip_str (Some 6) (Some 8)
  ++ lit "-" ++ slice nip_str (Some 8) (Some 10).

(** ** Spans *)

(** Position [x] lies in the half-open span [[start, end)]. *)
Definition in_span (start end_ x : Z) : Prop := start <= x < end_.

(** Two detections share no position. *)
Definition disjoint_spans (a b : RecognizerResult.t) : Prop :=
  forall x,
    ~ (in_span (RecognizerResult.start a) (RecognizerResult.end_ a) x /\
       in_span (RecognizerResult.start b) (RecognizerResult.end_ b) x).

(** Two detections share a position: their intervals intersect. *)
Definition intersecting_spans (a b : RecognizerResult.t) : Prop :=
  exists x,
    in_span (RecognizerResult.start a) (RecognizerResult.end_ a) x /\
    in_span (RecognizerResult.start b) (RecognizerResult.end_ b) x.

(** Each of the two detections starts before the other one ends. *)
Definition crossing_spans (a b : RecognizerResult.t) : Prop :=
  RecognizerResult.start b < RecognizerResult.end_ a /\
  RecognizerResult.start a < RecognizerResult.end_ b.

(** The span of a detection holds a position. *)
Definition nonempty_span (a : RecognizerResult.t) : Prop :=
  RecognizerResult.start a < RecognizerResult.end_ a.

(** Detection [a] scores at least as high as [b]. *)
Definition score_ge (a b : RecognizerResult.t) : Prop :=
  (RecognizerResult.score b <= RecognizerResult.score a)%Q.

(** The detections of [l] whose score equals [q]. *)
Definition with_score (q : Q) (l : list RecognizerResult.t) : list RecognizerResult.t :=
  List.filter (fun r => Qeq_bool (RecognizerResult.score r) q) l.

(** [sorted(results, key=lambda r: r.score, reverse=True)] *)
Definition by_score_desc : list RecognizerResult.t -> list RecognizerResult.t :=
  sorted Qltb RecognizerResult.score true.

(** The span of a replacement is non-empty and lies inside the text. *)
Definition inside_text (text : str) (r : Replacement.t) : Prop :=
  0 <= Replacement.start r /\ Replacement.start r < Replacement.end_ r
  /\ Replacement.end_ r <= len text.


(** Two replacements share no position of the text. *)
Definition disjoint_replacements (a b : Replacement.t) : Prop :=
  forall x,
    ~ (in_span (Replacement.start a) (Replacement.end_ a) x /\
       in_span (Replacement.start b) (Replacement.end_ b) x).

(** The text between [pos] and [hi] in which the span of each replacement of
    [asc], listed from left to right, is replaced by its replacement text and
    everything between the spans is copied in order. *)
Fixpoint substitute (text : str) (pos : Z) (asc : list Replacement.t) (hi : Z) : str :=
  match asc with
  | [] => slice text (Some pos) (Some hi)
  | r :: asc' =>
      slice text (Some pos) (Some (Replacement.start r))
      ++ Replacement.replacement r
      ++ substitute text (Replacement.end_ r) asc' hi
  end.

(** ** The casing rules *)

Section CasingRules.
Context {U : UnicodeData}.

(** Every word of length greater than 1 has an uppercase first character
    and a lowercase remainder. *)
Definition title_cased (words : list str) : bool :=
  forallb (fun w =>
             match w with
             | [] => true
             | c :: rest => uc_isupper c && islower rest
             end)
          (List.filter (fun w => 1 <? len w) words).

(** Every word of the replacement capitalized, the words joined by single
    spaces. *)
Definition capitalize_words (replacement : str) : str :=
  join (lit " ") (List.map capitalize (split replacement)).

(** The three rules as the specification words them. *)
Definition casing_rules (source replacement : str) : str :=
  if isupper source then upper replacement
  else if title_cased (split source) then capitalize_words replacement
  else replacement.

(** The three rules with the second one applying only to a source that has
    a word. *)
Definition casing_rules_guarded (source replacement : str) : str :=
  if isupper source then upper replacement
  else
    match split source with
    | [] => replacement
    | words =>
        if title_cased words then capitalize_words replacement else replacement
    end.
End CasingRules.

(** ** The seed *)

(** The unsigned integer a byte string denotes, most significant byte
    first. *)
Definition be_value (bytes : list Z) : Z :=
  fold_left (fun acc b => acc * 256 + b) bytes 0.

(** The first [k] bits of a byte string as an unsigned integer. *)
Definition first_bits (k : Z) (bytes : list Z) : Z :=
  be_value bytes / 2 ^ (8 * len bytes - k).

(** The seed as the specification words it: the first 64 bits of the SHA-256
    digest of the salt, the lowercased value and the entity type. *)
Definition seed_spec {U : UnicodeData} (salt value entity_type : str) : outcome Z :=
  encoded <- encode_utf8 (salt ++ lower value ++ entity_type) ;;
  Ok (first_bits 64 (SHA256.digest encoded)).

(** The two hexadecimal digits of a byte. *)
Definition hex_pair (b : Z) : str :=
  [SHA256.hex_char (b / 16); SHA256.hex_char (b mod 16)].

(** ** Replacement records *)

(** The normalized key of a replacement: its original substring trimmed and
    lowercased, and its entity type. *)
Definition key_of {U : UnicodeData} (r : Replacement.t) : str * str :=
  (lower (strip (Replacement.original r)), Replacement.entity_type r).

(** The detection a replacement records. *)
Definition detection_of (r : Replacement.t) : RecognizerResult.t :=
  RecognizerResult.mk (Replacement.entity_type r) (Replacement.start r)
    (Replacement.end_ r) (Replacement.score r).

(** The replacements are listed by ascending start offset. *)
Definition ascending_starts (l : list Replacement.t) : Prop :=
  StronglySorted (fun a b => Replacement.start a <= Replacement.start b) l.

(** The detections of the text ["Jan 123 JAN"] used in the examples. *)
Definition sample_detections : list RecognizerResult.t :=
  [RecognizerResult.mk (lit "PERSON") 0 3 (1 # 2);
   RecognizerResult.mk (lit "PL_PESEL") 4 7 (9 # 10);
   RecognizerResult.mk (lit "PERSON") 8 11 (1 # 2);
   RecognizerResult.mk (lit "LOCATION") 2 5 (1 # 3)].

(** Every seed of a run can be computed: the salt, the lowercased substring
    and the entity type of each accepted detection can be encoded. *)
Definition seeds_computable {U : UnicodeData} {E : AnalyzerEngine}
    (self : Pseudonymizer) (text : str) : Prop :=
  Forall (fun d => returns (_compute_seed self
                      (slice text (Some (RecognizerResult.start d))
                                  (Some (RecognizerResult.end_ d)))
                      (RecognizerResult.entity_type d)))
         (analyze self text).

(** The result of the example run on ["Jan 123 JAN"]. *)
Definition sample_result : PseudonymizationResult.t :=
  PseudonymizationResult.mk (lit "Jan 123 JAN")
    (lit "Tadeusz Elwart 55032434583 Tadeusz Elwart")
    [Replacement.mk 4 7 (lit "123") (lit "55032434583") (lit "PL_PESEL") (9 # 10);
     Replacement.mk 0 3 (lit "Jan") (lit "Tadeusz Elwart") (lit "PERSON") (1 # 2);
     Replacement.mk 8 11 (lit "JAN") (lit "Tadeusz Elwart") (lit "PERSON") (1 # 2)].

(** Every character of [s] that [isdigit] accepts is a decimal digit, so
    that [int] reads it. *)
Definition digits_are_decimal {U : UnicodeData} (s : str) : Prop :=
  forall c, In c s -> uc_isdigit c = true -> uc_decimal c <> None.

(** ** Further notions used by the properties *)

(** The keys of the [generators] dictionary of [_generate_replacement]. *)
Definition GENERATOR_KEYS : list str :=
  [lit "PERSON"; lit "ORGANIZATION"; lit "EMAIL_ADDRESS"; lit "PHONE_NUMBER";
   lit "PL_PHONE"; lit "PL_PESEL"; lit "PL_NIP"; lit "PL_REGON";
   lit "PL_ID_CARD"; lit "PL_PASSPORT"; lit "PL_POSTAL_CODE";
   lit "PL_BANK_ACCOUNT"; lit "IBAN_CODE"; lit "CREDIT_CARD"; lit "IP_ADDRESS";
   lit "URL"; lit "DATE_TIME"; lit "LOCATION"].

(** The number a two-digit field of a digit string denotes. *)
Definition two_digits (ds : list Z) (i : nat) : Z :=
  10 * nth i ds 0 + nth (S i) ds 0.

(** The change of length the replacements of [l] cause. *)
Definition shift (l : list Replacement.t) : Z :=
  fold_right
    (fun r acc =>
       len (Replacement.replacement r)
       - (Replacement.end_ r - Replacement.start r) + acc)
    0 l.

(** The replacement text computed for a key the cache does not hold yet: the
    generated value, in the casing of the original for the case-sensitive
    entity types. *)
Definition fresh_replacement {U : UnicodeData} {R : PyRandom} {F : Faker}
    (self : Pseudonymizer) (original entity_type : str) : outcome str :=
  replacement_text <- _generate_replacement self original entity_type ;;
  if bool_decide (entity_type ∈ CASE_SENSITIVE_ENTITIES)
  then _match_casing original replacement_text
  else Ok replacement_text.

(** The span of a detection is non-empty and lies inside the text. *)
Definition detection_inside (text : str) (d : RecognizerResult.t) : Prop :=
  0 <= RecognizerResult.start d
  /\ RecognizerResult.start d < RecognizerResult.end_ d
  /\ RecognizerResult.end_ d <= len text.

(** No ASCII character is classed as a digit without being a decimal
    digit. *)
Definition ascii_isdigit_decimal (U : UnicodeData) : Prop :=
  forall c, 0 <= c < 128 -> uc_isdigit c = true -> uc_decimal c <> None.

(** The string holds ASCII characters only. *)
Definition is_ascii (s : str) : Prop := Forall (fun c => 0 <= c < 128) s.

(** * Properties *)

(** ** The exception monad and sequences *)

Lemma getitem_nat {A : Type} (s : list A) (k : nat) :
  getitem s (Z.of_nat k) = item s k.
Proof.
  unfold getitem, item, len.
  destruct (Z.ltb_spec (Z.of_nat k) 0) as [Hneg | _]; [lia |].
  rewrite Nat2Z.id.
  destruct (nth_error s k) as [x |] eqn:Hk.
  - assert (k < length s)%nat by (apply nth_error_Some; congruence).
    destruct (Z.leb_spec 0 (Z.of_nat k)); [| lia].
    destruct (Z.ltb_spec (Z.of_nat k) (Z.of_nat (length s))); [reflexivity | lia].
  - destruct (_ && _); reflexivity.
Qed.

Lemma getitem_neg1 {A : Type} (s : list A) (x : A) :
  getitem (s ++ [x]) (-1) = Ok x.
Proof.
  unfold getitem, len. rewrite length_app, Nat.add_comm. cbn [length Nat.add].
  change (-1 <? 0) with true. cbv iota.
  replace (-1 + Z.of_nat (S (length s))) with (Z.of_nat (length s)) by lia.
  destruct (Z.leb_spec 0 (Z.of_nat (length s))); [| lia].
  destruct (Z.ltb_spec (Z.of_nat (length s)) (Z.of_nat (S (length s)))); [| lia].
  rewrite Nat2Z.id. cbn [andb].
  rewrite nth_error_app2 by lia. rewrite Nat.sub_diag. reflexivity.
Qed.

Lemma item_app_end {A : Type} (s : list A) (x : A) : item (s ++ [x]) (length s) = Ok x.
Proof.
  unfold item. rewrite nth_error_app2 by lia. rewrite Nat.sub_diag. reflexivity.
Qed.

Lemma item_map {A B : Type} (f : A -> B) (s : list A) (k : nat) :
  item (List.map f s) k = (x <- item s k ;; Ok (f x)).
Proof. unfold item. rewrite nth_error_map. destruct (nth_error s k); reflexivity. Qed.

Lemma item_In {A : Type} (s : list A) (k : nat) (x : A) : item s k = Ok x -> In x s.
Proof.
  unfold item. destruct (nth_error s k) eqn:Hk; [| discriminate].
  intros [= <-]. eapply nth_error_In; eauto.
Qed.

Lemma range_nat (n : nat) : range (Z.of_nat n) = List.map Z.of_nat (seq 0 n).
Proof. unfold range. rewrite Nat2Z.id. reflexivity. Qed.

Lemma in_range (m n : Z) : 0 <= n < m -> In n (range m).
Proof.
  intros Hn. unfold range. apply in_map_iff. exists (Z.to_nat n).
  split; [lia |]. apply in_seq. lia.
Qed.

Lemma sum_for_map {A B : Type} (g : A -> B) (xs : list A) (f : B -> outcome Z) :
  sum_for (List.map g xs) f = sum_for xs (fun x => f (g x)).
Proof. induction xs as [| x xs IH]; cbn; [reflexivity |]. now rewrite IH. Qed.

Lemma sum_for_ext {A : Type} (xs : list A) (f g : A -> outcome Z) :
  (forall x, In x xs -> f x = g x) -> sum_for xs f = sum_for xs g.
Proof.
  induction xs as [| x xs IH]; intros Hfg; cbn; [reflexivity |].
  rewrite (Hfg x) by (left; reflexivity).
  rewrite IH; [reflexivity |]. intros y Hy. apply Hfg. now right.
Qed.

(** The generator expression over [range(len(weights))] computes the
    weighted sum. *)
Lemma sum_for_weighted (weights ds : list Z) :
  (length weights <= length ds)%nat ->
  sum_for (seq 0 (length weights)) (fun k =>
    d <- item ds k ;; w <- item weights k ;; Ok (d * w))
  = Ok (weighted_sum weights ds).
Proof.
  revert ds. induction weights as [| w weights IH]; intros ds Hlen.
  - reflexivity.
  - destruct ds as [| d ds]; [cbn in Hlen; lia |].
    cbn [length seq sum_for item nth_error bind].
    rewrite <- seq_shift, sum_for_map.
    cbn in Hlen. specialize (IH ds ltac:(lia)).
    unfold item in IH |- *. cbn [nth_error]. rewrite IH. reflexivity.
Qed.

Lemma sum_for_getitem (n : Z) (weights ds : list Z) :
  n = len weights -> (length weights <= length ds)%nat ->
  sum_for (range n) (fun i =>
    d <- getitem ds i ;; w <- getitem weights i ;; Ok (d * w))
  = Ok (weighted_sum weights ds).
Proof.
  intros -> Hlen. unfold len. rewrite range_nat, sum_for_map.
  rewrite <- (sum_for_weighted weights ds Hlen).
  apply sum_for_ext. intros k _. now rewrite !getitem_nat.
Qed.

Lemma weighted_sum_app (weights ds rest : list Z) :
  (length weights <= length ds)%nat ->
  weighted_sum weights (ds ++ rest) = weighted_sum weights ds.
Proof.
  revert ds. induction weights as [| w weights IH]; intros ds Hlen; [reflexivity |].
  destruct ds as [| d ds]; cbn in Hlen; [lia |].
  cbn. rewrite IH by lia. reflexivity.
Qed.

(** ** Digit strings *)

Lemma digit_char_range (d : Z) : is_digit d -> 48 <= digit_char d <= 57.
Proof. unfold is_digit, digit_char. lia. Qed.

Lemma replace_render (old : Z) (new : str) (ds : list Z) :
  old < 48 -> Forall is_digit ds -> replace old new (render ds) = render ds.
Proof.
  intros Hold Hds. unfold replace, render.
  induction Hds as [| d ds Hd _ IH]; [reflexivity |].
  cbn. apply digit_char_range in Hd.
  destruct (Z.eqb_spec (digit_char d) old); [lia |]. cbn. now rewrite IH.
Qed.

Lemma len_render (ds : list Z) : len (render ds) = len ds.
Proof. unfold len, render. now rewrite length_map. Qed.

(** A decidable property checked on every number below [m]. *)
Lemma range_check (P : Z -> Prop) `{!forall n, Decision (P n)} (m : Z) :
  forallb (fun n => bool_decide (P n)) (range m) = true ->
  forall n, 0 <= n < m -> P n.
Proof.
  intros Hall n Hn. rewrite forallb_forall in Hall.
  specialize (Hall n (in_range m n Hn)). now apply bool_decide_eq_true in Hall.
Qed.

Lemma str_of_int_digit (d : Z) : is_digit d -> str_of_int d = render [d].
Proof.
  intros Hd. apply (range_check (fun d => str_of_int d = render [d]) 10).
  - vm_compute. reflexivity.
  - unfold is_digit in Hd. lia.
Qed.

Lemma join_str_of_int (ds : list Z) :
  Forall is_digit ds -> join [] (List.map str_of_int ds) = render ds.
Proof.
  induction 1 as [| d ds Hd Hds IH]; [reflexivity |].
  cbn [List.map join]. rewrite IH. rewrite (str_of_int_digit d Hd).
  destruct ds; reflexivity.
Qed.

Lemma format_0d_2 (n : Z) :
  0 <= n <= 99 -> format_0d 2 n = render [n / 10; n mod 10].
Proof.
  intros Hn.
  apply (range_check (fun n => format_0d 2 n = render [n / 10; n mod 10]) 100).
  - vm_compute. reflexivity.
  - lia.
Qed.

Lemma format_0d_3 (n : Z) :
  0 <= n <= 999 ->
  format_0d 3 n = render [n / 100; (n / 10) mod 10; n mod 10].
Proof.
  intros Hn.
  apply (range_check
           (fun n => format_0d 3 n = render [n / 100; (n / 10) mod 10; n mod 10])
           1000).
  - vm_compute. reflexivity.
  - lia.
Qed.

Section DigitStrings.
Context {U : UnicodeData} (HU : ascii_digits_decimal U).

Lemma isdigit_render (ds : list Z) :
  ds <> [] -> Forall is_digit ds -> isdigit (render ds) = true.
Proof.
  intros Hne Hds. destruct ds as [| d ds]; [congruence |].
  cbn [render List.map isdigit]. change (forallb uc_isdigit (render (d :: ds)) = true).
  clear Hne. induction Hds as [| x xs Hx _ IH]; [reflexivity |].
  cbn. rewrite (proj1 (HU x Hx)). exact IH.
Qed.

Lemma int_of_digit_char (d : Z) : is_digit d -> int_of_char (digit_char d) = Ok d.
Proof. intros Hd. unfold int_of_char. now rewrite (proj2 (HU d Hd)). Qed.

(** The validators' generator expression on a digit string. *)
Lemma sum_for_render (n : Z) (weights ds : list Z) :
  n = len weights -> (length weights <= length ds)%nat -> Forall is_digit ds ->
  sum_for (range n) (fun i =>
    c <- getitem (render ds) i ;; d <- int_of_char c ;;
    w <- getitem weights i ;; Ok (d * w))
  = Ok (weighted_sum weights ds).
Proof.
  intros Hn Hlen Hds. rewrite <- (sum_for_getitem n weights ds Hn Hlen).
  apply sum_for_ext. intros i Hi.
  unfold range in Hi. apply in_map_iff in Hi as (k & <- & _).
  rewrite !getitem_nat. unfold render. rewrite item_map.
  destruct (item ds k) as [d | e] eqn:Hk; [| reflexivity].
  cbn [bind]. rewrite int_of_digit_char; [reflexivity |].
  rewrite List.Forall_forall in Hds. apply Hds. eapply item_In; eauto.
Qed.

End DigitStrings.

(** Linear arithmetic with division and remainder by constants. *)
Ltac divlia := Z.div_mod_to_equations; lia.

(** A list of digits, each one an assumption. *)
Ltac forall_digits :=
  repeat (apply List.Forall_cons; [assumption |]); apply List.Forall_nil.

(** ** Seeded draws *)

Lemma randints_spec {R : PyRandom} (HR : randint_in_range R)
    (n : nat) (st : RandomState) (a b : Z) :
  a <= b ->
  length (fst (randints n st a b)) = n /\
  Forall (fun x => a <= x <= b) (fst (randints n st a b)).
Proof.
  intros Hab. revert st. induction n as [| n IH]; intros st; cbn.
  - split; [reflexivity | constructor].
  - pose proof (HR st a b Hab) as Hx.
    destruct (randint st a b) as [x st1]. cbn in Hx.
    specialize (IH st1). destruct (randints n st1 a b) as [xs st2]. cbn in *.
    destruct IH as [IHlen IHall]. split; [now rewrite IHlen | now constructor].
Qed.

Lemma lcg_in_range : randint_in_range lcg.
Proof.
  intros st a b Hab. cbn.
  pose proof (Z.mod_pos_bound (((1103515245 * st + 12345) mod 2 ^ 31) / 65536)
                (b - a + 1) ltac:(lia)).
  lia.
Qed.

Lemma latin_ascii_digits : ascii_digits_decimal latin_ucd.
Proof.
  intros d Hd.
  apply (range_check
           (fun d => uc_isdigit (digit_char d) = true
                     /\ uc_decimal (digit_char d) = Some d) 10).
  - vm_compute. reflexivity.
  - lia.
Qed.

(** ** Generated identifiers *)

Lemma render_app (xs ys : list Z) : render (xs ++ ys) = render xs ++ render ys.
Proof. apply map_app. Qed.

Lemma replace_app (old : Z) (new a b : str) :
  replace old new (a ++ b) = replace old new a ++ replace old new b.
Proof. apply flat_map_app. Qed.

Lemma is_digit_mod11 (c : Z) : c mod 11 <> 10 -> is_digit (c mod 11).
Proof. unfold is_digit. pose proof (Z.mod_pos_bound c 11). lia. Qed.

Lemma is_digit_pesel_control (ds : list Z) : is_digit (pesel_control ds).
Proof.
  unfold is_digit, pesel_control.
  pose proof (Z.mod_pos_bound (10 - weighted_sum PESEL_WEIGHTS ds mod 10) 10). lia.
Qed.

Lemma is_digit_regon_control (length : Z) (ds : list Z) :
  is_digit (regon_control length ds).
Proof.
  unfold regon_control.
  destruct (Z.eqb_spec (weighted_sum (regon_weights length) ds mod 11) 10) as [| Hne].
  - unfold is_digit. lia.
  - now apply is_digit_mod11.
Qed.

Section GeneratedIdentifiers.
Context {U : UnicodeData} {R : PyRandom}.
Hypothesis HU : ascii_digits_decimal U.
Hypothesis HR : randint_in_range R.

Lemma generate_pesel_digits (seed : Z) :
  exists ds, length ds = 10%nat /\ Forall is_digit ds /\
    generate_pesel seed = Ok (render (ds ++ [pesel_control ds])).
Proof.
  unfold generate_pesel.
  pose proof (HR (Random seed) 50 99 ltac:(lia)) as Hyear.
  destruct (randint (Random seed) 50 99) as [year rng1].
  pose proof (HR rng1 1 12 ltac:(lia)) as Hmonth.
  destruct (randint rng1 1 12) as [month rng2].
  pose proof (HR rng2 1 28 ltac:(lia)) as Hday.
  destruct (randint rng2 1 28) as [day rng3].
  pose proof (HR rng3 0 999 ltac:(lia)) as Hserial.
  destruct (randint rng3 0 999) as [serial rng4].
  pose proof (HR rng4 0 9 ltac:(lia)) as Hgender.
  destruct (randint rng4 0 9) as [gender rng5].
  cbn [fst] in *.
  set (ds := [year / 10; year mod 10; month / 10; month mod 10;
              day / 10; day mod 10;
              serial / 100; (serial / 10) mod 10; serial mod 10; gender]).
  assert (Hds : Forall is_digit ds).
  { unfold ds, is_digit. repeat (apply List.Forall_cons; [cbv beta; divlia |]). apply List.Forall_nil. }
  exists ds. split; [reflexivity |]. split; [exact Hds |].
  rewrite !format_0d_2, format_0d_3, (str_of_int_digit gender) by (unfold is_digit; lia).
  change (render [year / 10; year mod 10] ++ render [month / 10; month mod 10]
          ++ render [day / 10; day mod 10]
          ++ render [serial / 100; (serial / 10) mod 10; serial mod 10]
          ++ render [gender]) with (render ds).
  rewrite (sum_for_render HU 10 PESEL_WEIGHTS ds) by (reflexivity || cbn; lia || exact Hds).
  cbn [bind]. fold (pesel_control ds).
  rewrite (str_of_int_digit _ (is_digit_pesel_control ds)), render_app.
  reflexivity.
Qed.

Lemma validate_pesel_digits (ds : list Z) :
  length ds = 10%nat -> Forall is_digit ds ->
  validate_pesel (render (ds ++ [pesel_control ds])) = Ok true.
Proof.
  intros Hlen Hds.
  assert (Hall : Forall is_digit (ds ++ [pesel_control ds])).
  { apply List.Forall_app. split; [exact Hds |].
    apply List.Forall_cons; [apply is_digit_pesel_control | apply List.Forall_nil]. }
  unfold validate_pesel.
  rewrite !replace_render by (lia || exact Hall).
  rewrite len_render. unfold len at 1. rewrite length_app, Hlen. cbn [length Nat.add].
  change (Z.of_nat 11 =? 11) with true.
  rewrite isdigit_render by (exact HU || exact Hall || now destruct ds).
  cbn [negb orb].
  rewrite (sum_for_render HU 10 PESEL_WEIGHTS) by (reflexivity || exact Hall || (rewrite length_app; cbn; lia)).
  cbn [bind]. rewrite weighted_sum_app by (cbn; lia).
  fold (pesel_control ds).
  rewrite render_app.
  replace 10 with (Z.of_nat (length (render ds)))
    by (unfold render; rewrite length_map, Hlen; reflexivity).
  rewrite getitem_nat. change (render [pesel_control ds]) with [digit_char (pesel_control ds)].
  rewrite item_app_end. cbn [bind].
  rewrite (int_of_digit_char HU) by apply is_digit_pesel_control.
  cbn [bind]. now rewrite Z.eqb_refl.
Qed.

End GeneratedIdentifiers.

Section GeneratedNip.
Context {U : UnicodeData} {R : PyRandom}.
Hypothesis HU : ascii_digits_decimal U.
Hypothesis HR : randint_in_range R.

Lemma nip_checksum_eq (nip_9 : list Z) :
  length nip_9 = 9%nat ->
  nip_checksum nip_9 = Ok (weighted_sum NIP_WEIGHTS nip_9).
Proof.
  intros Hlen. unfold nip_checksum.
  apply sum_for_getitem; [reflexivity | cbn; lia].
Qed.

(** One increment of the ninth digit moves the checksum off 10 modulo 11. *)
Lemma nip_repair (nip_9 : list Z) :
  length nip_9 = 9%nat -> Forall is_digit nip_9 -> nip_control nip_9 = 10 ->
  exists d8 repaired,
    getitem nip_9 8 = Ok d8 /\
    setitem nip_9 8 ((d8 + 1) mod 10) = Ok repaired /\
    length repaired = 9%nat /\ Forall is_digit repaired /\
    (weighted_sum NIP_WEIGHTS repaired - weighted_sum NIP_WEIGHTS nip_9 = 7 \/
     weighted_sum NIP_WEIGHTS repaired - weighted_sum NIP_WEIGHTS nip_9 = -63) /\
    nip_control repaired <> 10.
Proof.
  intros Hlen Hds Hctl.
  destruct nip_9 as [| d0 [| d1 [| d2 [| d3 [| d4 [| d5 [| d6 [| d7 [| d8 [| ? ?]]]]]]]]]];
    try discriminate Hlen.
  exists d8, [d0; d1; d2; d3; d4; d5; d6; d7; (d8 + 1) mod 10].
  assert (Hd8 : is_digit d8).
  { rewrite List.Forall_forall in Hds. apply Hds. cbn. tauto. }
  assert (Hnew : is_digit ((d8 + 1) mod 10)) by (unfold is_digit; divlia).
  split; [reflexivity |]. split; [reflexivity |]. split; [reflexivity |].
  split.
  { repeat (apply Forall_cons_1 in Hds as [? Hds]). forall_digits. }
  unfold nip_control in *. cbn [weighted_sum NIP_WEIGHTS] in *.
  unfold is_digit in Hd8. split; divlia.
Qed.

Lemma generate_nip_digits (seed : Z) (formatted : bool) :
  exists ds, length ds = 9%nat /\ Forall is_digit ds /\ nip_control ds <> 10 /\
    generate_nip seed formatted =
      Ok (if formatted then nip_grouped (render (ds ++ [nip_control ds]))
          else render (ds ++ [nip_control ds])).
Proof.
  unfold generate_nip.
  destruct (randints_spec HR 9 (Random seed) 0 9 ltac:(lia)) as [Hlen Hds].
  destruct (randints 9 (Random seed) 0 9) as [nip_9 rng]. cbn [fst] in Hlen, Hds.
  change (Forall is_digit nip_9) in Hds.
  rewrite (nip_checksum_eq nip_9 Hlen). cbn [bind].
  assert (Hfinish : forall ds, length ds = 9%nat -> Forall is_digit ds ->
            nip_control ds <> 10 ->
            join [] (List.map str_of_int (ds ++ [nip_control ds]))
            = render (ds ++ [nip_control ds])).
  { intros ds _ Hall Hne. apply join_str_of_int, List.Forall_app. split; [exact Hall |].
    apply List.Forall_cons; [now apply is_digit_mod11 | apply List.Forall_nil]. }
  destruct (Z.eqb_spec (weighted_sum NIP_WEIGHTS nip_9 mod 11) 10) as [Hten | Hne].
  - destruct (nip_repair nip_9 Hlen Hds Hten)
      as (d8 & repaired & Hget & Hset & Hlen' & Hds' & _ & Hne').
    rewrite Hget. cbn [bind]. rewrite Hset. cbn [bind].
    rewrite (nip_checksum_eq repaired Hlen'). cbn [bind].
    fold (nip_control repaired).
    destruct (Z.eqb_spec (nip_control repaired) 10) as [| _]; [contradiction |].
    exists repaired. repeat (split; [assumption |]).
    rewrite (Hfinish repaired Hlen' Hds' Hne'). destruct formatted; reflexivity.
  - cbn [bind]. fold (nip_control nip_9) in Hne |- *.
    exists nip_9. repeat (split; [assumption |]).
    rewrite (Hfinish nip_9 Hlen Hds Hne). destruct formatted; reflexivity.
Qed.

Lemma clean_nip_grouped (ds : list Z) :
  length ds = 10%nat -> Forall is_digit ds ->
  replace 32 [] (replace 45 [] (nip_grouped (render ds))) = render ds.
Proof.
  intros Hlen Hds.
  destruct ds as [| d0 [| d1 [| d2 [| d3 [| d4 [| d5 [| d6 [| d7 [| d8 [| d9 [| ? ?]]]]]]]]]]];
    try discriminate Hlen.
  change (nip_grouped (render [d0; d1; d2; d3; d4; d5; d6; d7; d8; d9]))
    with (render [d0; d1; d2] ++ lit "-" ++ render [d3; d4; d5] ++ lit "-"
          ++ render [d6; d7] ++ lit "-" ++ render [d8; d9]).
  repeat (apply Forall_cons_1 in Hds as [? Hds]).
  rewrite !replace_app.
  change (replace 45 [] (lit "-")) with (@nil Z).
  rewrite !replace_render by first [lia | forall_digits].
  reflexivity.
Qed.

Lemma validate_nip_clean (nip : str) (ds : list Z) :
  length ds = 9%nat -> Forall is_digit ds -> nip_control ds <> 10 ->
  replace 32 [] (replace 45 [] nip) = render (ds ++ [nip_control ds]) ->
  validate_nip nip = Ok true.
Proof.
  intros Hlen Hds Hne Hclean.
  assert (Hall : Forall is_digit (ds ++ [nip_control ds])).
  { apply List.Forall_app. split; [exact Hds |].
    apply List.Forall_cons; [now apply is_digit_mod11 | apply List.Forall_nil]. }
  unfold validate_nip. rewrite Hclean.
  rewrite len_render. unfold len at 1. rewrite length_app, Hlen. cbn [length Nat.add].
  change (Z.of_nat 10 =? 10) with true.
  rewrite isdigit_render by (exact HU || exact Hall || now destruct ds).
  cbn [negb orb].
  rewrite (sum_for_render HU 9 NIP_WEIGHTS)
    by (reflexivity || exact Hall || (rewrite length_app; cbn; lia)).
  cbn [bind]. rewrite weighted_sum_app by (cbn; lia).
  fold (nip_control ds).
  destruct (Z.eqb_spec (nip_control ds) 10) as [| _]; [contradiction |].
  cbn [negb]. rewrite render_app.
  replace 9 with (Z.of_nat (length (render ds)))
    by (unfold render; rewrite length_map, Hlen; reflexivity).
  rewrite getitem_nat. change (render [nip_control ds]) with [digit_char (nip_control ds)].
  rewrite item_app_end. cbn [bind].
  rewrite (int_of_digit_char HU) by now apply is_digit_mod11.
  cbn [bind]. now rewrite Z.eqb_refl.
Qed.

Lemma generate_regon_digits (seed length : Z) :
  length = 9 \/ length = 14 ->
  exists ds, len ds = length - 1 /\ Forall is_digit ds /\
    generate_regon seed length = Ok (render (ds ++ [regon_control length ds])).
Proof.
  intros Hlength. unfold generate_regon.
  assert (Hw : len (regon_weights length) = length - 1)
    by (destruct Hlength; subst; reflexivity).
  replace (negb ((length =? 9) || (length =? 14))) with false
    by (destruct Hlength; subst; reflexivity).
  destruct (randints_spec HR (Z.to_nat (length - 1)) (Random seed) 0 9 ltac:(lia))
    as [Hlen Hds].
  destruct (randints (Z.to_nat (length - 1)) (Random seed) 0 9) as [digits rng].
  cbn [fst] in Hlen, Hds. change (Forall is_digit digits) in Hds.
  fold (regon_weights length).
  rewrite (sum_for_getitem (length - 1) (regon_weights length) digits)
    by (unfold len in *; lia).
  cbn [bind]. fold (regon_control length digits).
  exists digits. split; [unfold len; lia |]. split; [exact Hds |].
  rewrite (join_str_of_int digits Hds).
  rewrite (str_of_int_digit _ (is_digit_regon_control length digits)).
  now rewrite render_app.
Qed.

Lemma validate_regon_digits (length : Z) (ds : list Z) :
  length = 9 \/ length = 14 -> len ds = length - 1 -> Forall is_digit ds ->
  validate_regon (render (ds ++ [regon_control length ds])) = Ok true.
Proof.
  intros Hlength Hlen Hds.
  assert (Hall : Forall is_digit (ds ++ [regon_control length ds])).
  { apply List.Forall_app. split; [exact Hds |].
    apply List.Forall_cons; [apply is_digit_regon_control | apply List.Forall_nil]. }
  assert (Hw : len (regon_weights length) = length - 1)
    by (destruct Hlength; subst; reflexivity).
  unfold validate_regon.
  rewrite !replace_render by (lia || exact Hall).
  rewrite isdigit_render by (exact HU || exact Hall || now destruct ds).
  cbn [negb].
  assert (Hlen' : len (render (ds ++ [regon_control length ds])) = length).
  { rewrite len_render. unfold len in *. rewrite length_app. cbn [List.length]. lia. }
  rewrite Hlen'.
  assert (Hsum : forall weights, weights = regon_weights length ->
    (checksum <- sum_for (range (len weights)) (fun i =>
        c <- getitem (render (ds ++ [regon_control length ds])) i ;;
        d <- int_of_char c ;; w <- getitem weights i ;; Ok (d * w)) ;;
     let control := checksum mod 11 in
     let control := if control =? 10 then 0 else control in
     c <- getitem (render (ds ++ [regon_control length ds])) (-1) ;;
     last <- int_of_char c ;; Ok (control =? last)) = Ok true).
  { intros weights ->.
    rewrite (sum_for_render HU _ (regon_weights length))
      by (reflexivity || exact Hall || (rewrite length_app; unfold len in *; lia)).
    cbn [bind]. rewrite weighted_sum_app by (unfold len in *; lia).
    cbv zeta. fold (regon_control length ds).
    rewrite render_app. change (render [regon_control length ds])
      with [digit_char (regon_control length ds)].
    rewrite getitem_neg1. cbn [bind].
    rewrite (int_of_digit_char HU) by apply is_digit_regon_control.
    cbn [bind]. now rewrite Z.eqb_refl. }
  destruct Hlength; subst length.
  - change (9 =? 9) with true. cbn [bind]. now apply Hsum.
  - change (14 =? 9) with false. change (14 =? 14) with true. cbn [bind]. now apply Hsum.
Qed.

End GeneratedNip.

(** ** Generated identifiers validate *)

(** C1: for every seed, each generated identifier passes its family's
    validator: the PESEL, the NIP in both renderings (grouped with hyphens and
    bare), and the REGON of length 9 and of length 14.  The draws may be any
    values [randint] can return; the database must class the ASCII digits as
    decimal digits. *)
Theorem generated_identifiers_validate {U : UnicodeData} {R : PyRandom}
    (HU : ascii_digits_decimal U) (HR : randint_in_range R) (seed : Z) :
  (exists pesel, generate_pesel seed = Ok pesel /\ validate_pesel pesel = Ok true) /\
  (forall formatted, exists nip,
      generate_nip seed formatted = Ok nip /\ validate_nip nip = Ok true) /\
  (forall length, length = 9 \/ length = 14 -> exists regon,
      generate_regon seed length = Ok regon /\ validate_regon regon = Ok true).
Proof.
  split; [| split].
  - destruct (generate_pesel_digits HU HR seed) as (ds & Hlen & Hds & Hgen).
    eexists. split; [exact Hgen |]. now apply validate_pesel_digits.
  - intros formatted.
    destruct (generate_nip_digits HR seed formatted) as (ds & Hlen & Hds & Hne & Hgen).
    eexists. split; [exact Hgen |].
    apply (validate_nip_clean HU _ ds Hlen Hds Hne).
    assert (Hall : Forall is_digit (ds ++ [nip_control ds])).
    { apply List.Forall_app. split; [exact Hds |].
      apply List.Forall_cons; [now apply is_digit_mod11 | apply List.Forall_nil]. }
    destruct formatted.
    + apply clean_nip_grouped; [| exact Hall].
      rewrite length_app, Hlen. reflexivity.
    + rewrite !replace_render by (lia || exact Hall). reflexivity.
  - intros length Hlength.
    destruct (generate_regon_digits HR seed length Hlength) as (ds & Hlen & Hds & Hgen).
    eexists. split; [exact Hgen |]. now apply validate_regon_digits.
Qed.

Lemma generated_identifiers_validate_witness :
  ascii_digits_decimal latin_ucd /\ randint_in_range lcg /\
  (exists pesel, @generate_pesel latin_ucd lcg 12345 = Ok pesel
                 /\ @validate_pesel latin_ucd pesel = Ok true) /\
  (forall formatted, exists nip,
      @generate_nip lcg 12345 formatted = Ok nip
      /\ @validate_nip latin_ucd nip = Ok true) /\
  (forall length, length = 9 \/ length = 14 -> exists regon,
      @generate_regon lcg 12345 length = Ok regon
      /\ @validate_regon latin_ucd regon = Ok true).
Proof.
  split; [exact latin_ascii_digits |]. split; [exact lcg_in_range |].
  exact (generated_identifiers_validate latin_ascii_digits lcg_in_range 12345).
Defined.

Example generate_pesel_12345 :
  @generate_pesel latin_ucd lcg 12345 = Ok (lit "68052649877").
Proof. vm_compute. reflexivity. Qed.

Example generate_nip_12345 :
  @generate_nip lcg 12345 true = Ok (lit "887-875-12-02").
Proof. vm_compute. reflexivity. Qed.

Example validate_known_identifiers :
  @validate_pesel latin_ucd (lit "44051401359") = Ok true /\
  @validate_nip latin_ucd (lit "123-456-32-18") = Ok true /\
  @validate_regon latin_ucd (lit "123456785") = Ok true /\
  @validate_pesel latin_ucd (lit "44051401358") = Ok false.
Proof. vm_compute. repeat split. Qed.

(** ** [generate_regon] *)

(** C8: [generate_regon] raises [ValueError] exactly when the length is
    neither 9 nor 14; for 9 and 14 it returns that many ASCII digits, the
    last one being the control digit of the others under the weight vector
    of that length, a control value of 10 being mapped to 0. *)
Theorem generate_regon_usage_error {R : PyRandom} (HR : randint_in_range R)
    (seed length : Z) :
  (generate_regon seed length = Raise ValueError <-> ~ (length = 9 \/ length = 14)) /\
  (length = 9 \/ length = 14 ->
   exists ds,
     len ds = length - 1 /\ Forall is_digit ds /\
     is_digit (regon_control length ds) /\
     generate_regon seed length = Ok (render (ds ++ [regon_control length ds])) /\
     len (render (ds ++ [regon_control length ds])) = length).
Proof.
  split.
  - split.
    + intros Hraise Hlength.
      destruct (generate_regon_digits HR seed length Hlength) as (ds & _ & _ & Hgen).
      congruence.
    + intros Hlength. unfold generate_regon.
      destruct (Z.eqb_spec length 9) as [-> | _]; [exfalso; apply Hlength; now left |].
      destruct (Z.eqb_spec length 14) as [-> | _]; [exfalso; apply Hlength; now right |].
      reflexivity.
  - intros Hlength.
    destruct (generate_regon_digits HR seed length Hlength) as (ds & Hlen & Hds & Hgen).
    exists ds. split; [exact Hlen |]. split; [exact Hds |].
    split; [apply is_digit_regon_control |]. split; [exact Hgen |].
    rewrite len_render. unfold len in *. rewrite length_app. cbn [List.length]. lia.
Qed.

Lemma generate_regon_usage_error_witness :
  randint_in_range lcg /\
  @generate_regon lcg 12345 7 = Raise ValueError /\
  exists ds,
    len ds = 9 - 1 /\ Forall is_digit ds /\ is_digit (regon_control 9 ds) /\
    @generate_regon lcg 12345 9 = Ok (render (ds ++ [regon_control 9 ds])) /\
    len (render (ds ++ [regon_control 9 ds])) = 9.
Proof.
  split; [exact lcg_in_range |]. split.
  - apply (proj1 (generate_regon_usage_error lcg_in_range 12345 7)). lia.
  - apply (proj2 (generate_regon_usage_error lcg_in_range 12345 9)). left. reflexivity.
Defined.

Example generate_regon_12345 :
  @generate_regon lcg 12345 9 = Ok (lit "887875125") /\
  @generate_regon lcg 12345 14 = Ok (lit "88787512012980") /\
  @generate_regon lcg 12345 10 = Raise ValueError.
Proof. vm_compute. repeat split. Qed.

(** ** The NIP repair step *)

(** C10: in [generate_nip] one repair step suffices.  When the control value
    of the nine drawn digits is 10, incrementing the ninth digit modulo 10
    changes the weighted checksum by +7 or by -63, and the recomputed control
    value is not 10; so the control digit is never forced to 0, and the last
    digit of every generated NIP is the weighted checksum of the first nine
    modulo 11. *)
Theorem nip_single_repair_suffices {R : PyRandom} (HR : randint_in_range R) :
  (forall nip_9 checksum,
      length nip_9 = 9%nat -> Forall is_digit nip_9 ->
      nip_checksum nip_9 = Ok checksum -> checksum mod 11 = 10 ->
      exists d8 repaired checksum',
        getitem nip_9 8 = Ok d8 /\
        setitem nip_9 8 ((d8 + 1) mod 10) = Ok repaired /\
        nip_checksum repaired = Ok checksum' /\
        (checksum' - checksum = 7 \/ checksum' - checksum = -63) /\
        checksum' mod 11 <> 10) /\
  (forall seed formatted, exists ds,
      length ds = 9%nat /\ Forall is_digit ds /\
      weighted_sum NIP_WEIGHTS ds mod 11 <> 10 /\
      generate_nip seed formatted =
        Ok (let nip_str := render (ds ++ [weighted_sum NIP_WEIGHTS ds mod 11]) in
            if formatted then nip_grouped nip_str else nip_str)).
Proof.
  split.
  - intros nip_9 checksum Hlen Hds Hsum Hten.
    rewrite (nip_checksum_eq nip_9 Hlen) in Hsum. injection Hsum as <-.
    destruct (nip_repair nip_9 Hlen Hds Hten)
      as (d8 & repaired & Hget & Hset & Hlen' & _ & Hdelta & Hne).
    exists d8, repaired, (weighted_sum NIP_WEIGHTS repaired).
    repeat (split; [assumption |]).
    split; [now apply nip_checksum_eq |]. split; assumption.
  - intros seed formatted.
    destruct (generate_nip_digits HR seed formatted) as (ds & Hlen & Hds & Hne & Hgen).
    exists ds. repeat (split; [assumption |]).
    rewrite Hgen. unfold nip_control. destruct formatted; reflexivity.
Qed.

Lemma nip_single_repair_suffices_witness :
  randint_in_range lcg /\
  (exists d8 repaired checksum',
      getitem [4; 0; 0; 0; 0; 0; 0; 0; 9] 8 = Ok d8 /\
      setitem [4; 0; 0; 0; 0; 0; 0; 0; 9] 8 ((d8 + 1) mod 10) = Ok repaired /\
      nip_checksum repaired = Ok checksum' /\
      (checksum' - 87 = 7 \/ checksum' - 87 = -63) /\
      checksum' mod 11 <> 10).
Proof.
  split; [exact lcg_in_range |].
  apply (proj1 (nip_single_repair_suffices lcg_in_range)
           [4; 0; 0; 0; 0; 0; 0; 0; 9] 87).
  - reflexivity.
  - repeat (apply List.Forall_cons; [unfold is_digit; lia |]). apply List.Forall_nil.
  - reflexivity.
  - reflexivity.
Defined.

(** The draws [4, 0, 0, 0, 0, 0, 0, 0, 9] take the repair step: the checksum
    87 has control value 10, the ninth digit wraps to 0 and the checksum
    becomes 24, with control value 2. *)
Example nip_repair_wraps :
  nip_checksum [4; 0; 0; 0; 0; 0; 0; 0; 9] = Ok 87 /\
  setitem [4; 0; 0; 0; 0; 0; 0; 0; 9] 8 ((9 + 1) mod 10)
    = Ok [4; 0; 0; 0; 0; 0; 0; 0; 0] /\
  nip_checksum [4; 0; 0; 0; 0; 0; 0; 0; 0] = Ok 24.
Proof. vm_compute. repeat split. Qed.

(** ** The validators on arbitrary strings *)

Lemma sum_for_returns {A : Type} (xs : list A) (f : A -> outcome Z) :
  (forall x, In x xs -> returns (f x)) -> returns (sum_for xs f).
Proof.
  induction xs as [| x xs IH]; intros Hf; cbn.
  - eexists; reflexivity.
  - destruct (Hf x ltac:(now left)) as [v ->]. cbn [bind].
    destruct IH as [r ->]; [intros y Hy; apply Hf; now right |].
    eexists; reflexivity.
Qed.

Lemma getitem_returns {A : Type} (s : list A) (i : Z) :
  0 <= i < len s -> exists x, getitem s i = Ok x /\ In x s.
Proof.
  intros Hi. rewrite <- (Z2Nat.id i) by lia. rewrite getitem_nat. unfold item, len in *.
  destruct (nth_error s (Z.to_nat i)) as [x |] eqn:Hx.
  - exists x. split; [reflexivity |]. eapply nth_error_In; eauto.
  - apply nth_error_None in Hx. lia.
Qed.

Lemma In_replace_nil (old c : Z) (s : str) : In c (replace old [] s) -> In c s.
Proof.
  unfold replace. intros Hc. apply in_flat_map in Hc as (x & Hx & Hc).
  destruct (x =? old); [destruct Hc |]. destruct Hc as [<- | []]. exact Hx.
Qed.

Section ValidatorsTotal.
Context {U : UnicodeData}.

Lemma isdigit_In (s : str) (c : Z) :
  isdigit s = true -> In c s -> uc_isdigit c = true.
Proof.
  intros Hs Hc. destruct s as [| x s]; [destruct Hc |].
  unfold isdigit in Hs. rewrite forallb_forall in Hs. now apply Hs.
Qed.

Lemma checksum_returns (n : Z) (weights : list Z) (s : str) :
  n <= len weights -> n <= len s ->
  (forall c, In c s -> returns (int_of_char c)) ->
  returns (sum_for (range n) (fun i =>
    c <- getitem s i ;; d <- int_of_char c ;;
    w <- getitem weights i ;; Ok (d * w))).
Proof.
  intros Hw Hs Hint. apply sum_for_returns. intros i Hi.
  unfold range in Hi. apply in_map_iff in Hi as (k & <- & Hk).
  apply in_seq in Hk.
  destruct (getitem_returns s (Z.of_nat k) ltac:(lia)) as (c & -> & Hc).
  cbn [bind]. destruct (Hint c Hc) as [d ->]. cbn [bind].
  destruct (getitem_returns weights (Z.of_nat k) ltac:(lia)) as (w & -> & _).
  eexists; reflexivity.
Qed.

Lemma int_of_char_returns (s clean : str) (c : Z) :
  digits_are_decimal s -> (forall x, In x clean -> In x s) ->
  isdigit clean = true -> In c clean -> returns (int_of_char c).
Proof.
  intros Hdec Hsub Hdigit Hc. unfold int_of_char.
  destruct (uc_decimal c) as [d |] eqn:Hd; [eexists; reflexivity |].
  exfalso. apply (Hdec c (Hsub c Hc)); [| exact Hd].
  now apply (isdigit_In clean).
Qed.

(** The validators reject a cleaned string of the wrong length or one that
    [isdigit] refuses, and they return on every string whose digits are
    decimal digits, as those of an ASCII string are. *)
Lemma validators_on_decimal_strings (s : str) :
  let clean_pesel := replace 45 [] (replace 32 [] s) in
  let clean_nip := replace 32 [] (replace 45 [] s) in
  (len clean_pesel <> 11 \/ isdigit clean_pesel = false -> validate_pesel s = Ok false) /\
  (len clean_nip <> 10 \/ isdigit clean_nip = false -> validate_nip s = Ok false) /\
  ((len clean_pesel <> 9 /\ len clean_pesel <> 14) \/ isdigit clean_pesel = false ->
   validate_regon s = Ok false) /\
  (digits_are_decimal s ->
   returns (validate_pesel s) /\ returns (validate_nip s) /\ returns (validate_regon s)).
Proof.
  cbv zeta.
  assert (Hsub1 : forall x, In x (replace 45 [] (replace 32 [] s)) -> In x s)
    by (intros x Hx; now apply In_replace_nil, In_replace_nil in Hx).
  assert (Hsub2 : forall x, In x (replace 32 [] (replace 45 [] s)) -> In x s)
    by (intros x Hx; now apply In_replace_nil, In_replace_nil in Hx).
  split; [| split; [| split]].
  - unfold validate_pesel. intros [Hlen | Hdigit].
    + destruct (Z.eqb_spec (len (replace 45 [] (replace 32 [] s))) 11); [lia | reflexivity].
    + rewrite Hdigit. now rewrite orb_true_r.
  - unfold validate_nip. intros [Hlen | Hdigit].
    + destruct (Z.eqb_spec (len (replace 32 [] (replace 45 [] s))) 10); [lia | reflexivity].
    + rewrite Hdigit. now rewrite orb_true_r.
  - unfold validate_regon. intros [[H9 H14] | Hdigit].
    + destruct (isdigit _); [| reflexivity]. cbn [negb].
      destruct (Z.eqb_spec (len (replace 45 [] (replace 32 [] s))) 9); [lia |].
      destruct (Z.eqb_spec (len (replace 45 [] (replace 32 [] s))) 14); [lia |].
      reflexivity.
    + now rewrite Hdigit.
  - intros Hdec. split; [| split].
    + unfold validate_pesel.
      set (clean := replace 45 [] (replace 32 [] s)) in *.
      destruct (Z.eqb_spec (len clean) 11) as [Hlen |]; [| eexists; reflexivity].
      destruct (isdigit clean) eqn:Hdigit; [| eexists; reflexivity].
      cbn [negb orb].
      destruct (checksum_returns 10 PESEL_WEIGHTS clean) as [checksum ->];
        [reflexivity | lia | intros c; now apply (int_of_char_returns s clean) |].
      cbn [bind].
      destruct (getitem_returns clean 10 ltac:(lia)) as (c & -> & Hc). cbn [bind].
      destruct (int_of_char_returns s clean c Hdec Hsub1 Hdigit Hc) as [d ->].
      eexists; reflexivity.
    + unfold validate_nip.
      set (clean := replace 32 [] (replace 45 [] s)) in *.
      destruct (Z.eqb_spec (len clean) 10) as [Hlen |]; [| eexists; reflexivity].
      destruct (isdigit clean) eqn:Hdigit; [| eexists; reflexivity].
      cbn [negb orb].
      destruct (checksum_returns 9 NIP_WEIGHTS clean) as [checksum ->];
        [reflexivity | lia | intros c; now apply (int_of_char_returns s clean) |].
      cbn [bind]. destruct (negb _); [| eexists; reflexivity].
      destruct (getitem_returns clean 9 ltac:(lia)) as (c & -> & Hc). cbn [bind].
      destruct (int_of_char_returns s clean c Hdec Hsub2 Hdigit Hc) as [d ->].
      eexists; reflexivity.
    + unfold validate_regon.
      set (clean := replace 45 [] (replace 32 [] s)) in *.
      destruct (isdigit clean) eqn:Hdigit; [| eexists; reflexivity].
      cbn [negb].
      assert (Hlast : 0 < len clean -> returns (c <- getitem clean (-1) ;; int_of_char c)).
      { intros Hpos. unfold getitem. change (-1 <? 0) with true. cbv iota.
        destruct (Z.leb_spec 0 (-1 + len clean)); [| lia].
        destruct (Z.ltb_spec (-1 + len clean) (len clean)); [| lia].
        cbn [andb].
        destruct (nth_error clean (Z.to_nat (-1 + len clean))) as [c |] eqn:Hc.
        - cbn [bind]. apply (int_of_char_returns s clean c Hdec Hsub1 Hdigit).
          eapply nth_error_In; eauto.
        - apply nth_error_None in Hc. unfold len in *. lia. }
      destruct (Z.eqb_spec (len clean) 9) as [Hlen |].
      * cbn [bind].
        destruct (checksum_returns (len REGON_9_WEIGHTS) REGON_9_WEIGHTS clean)
          as [checksum ->];
          [lia | change (len REGON_9_WEIGHTS) with 8; lia
           | intros c; now apply (int_of_char_returns s clean) |].
        cbn [bind]. destruct (Hlast ltac:(lia)) as [d Hd].
        destruct (getitem clean (-1)) as [c |]; [| discriminate]. cbn [bind] in Hd |- *.
        rewrite Hd. eexists; reflexivity.
      * destruct (Z.eqb_spec (len clean) 14) as [Hlen |]; [| eexists; reflexivity].
        cbn [bind].
        destruct (checksum_returns (len REGON_14_WEIGHTS) REGON_14_WEIGHTS clean)
          as [checksum ->];
          [lia | change (len REGON_14_WEIGHTS) with 13; lia
           | intros c; now apply (int_of_char_returns s clean) |].
        cbn [bind]. destruct (Hlast ltac:(lia)) as [d Hd].
        destruct (getitem clean (-1)) as [c |]; [| discriminate]. cbn [bind] in Hd |- *.
        rewrite Hd. eexists; reflexivity.
Qed.

End ValidatorsTotal.

(** C7 at the input of eleven superscript twos (U+00B2): [isdigit] accepts
    the string, so the guard lets it through, and [int] then raises
    [ValueError] on its first character; likewise for ten of them in
    [validate_nip] and nine in [validate_regon]. *)
Theorem validators_raise_on_superscript_digits :
  @isdigit latin_ucd (List.repeat 0xB2 11) = true /\
  @validate_pesel latin_ucd (List.repeat 0xB2 11) = Raise ValueError /\
  @validate_nip latin_ucd (List.repeat 0xB2 10) = Raise ValueError /\
  @validate_regon latin_ucd (List.repeat 0xB2 9) = Raise ValueError.
Proof. vm_compute. repeat split. Qed.

(** ** [sorted] *)

Section SortedFacts.
Context {A K : Type} (ltb : K -> K -> bool) (key : A -> K) (reverse : bool).

Lemma sorted_insert_perm (x : A) (l : list A) :
  Permutation (sorted_insert ltb key reverse x l) (x :: l).
Proof.
  induction l as [| y l IH]; cbn; [reflexivity |].
  destruct (if reverse then ltb (key x) (key y) else ltb (key y) (key x)).
  - rewrite IH. apply perm_swap.
  - reflexivity.
Qed.

Lemma sorted_perm (l : list A) : Permutation (sorted ltb key reverse l) l.
Proof.
  induction l as [| x l IH]; cbn; [reflexivity |].
  rewrite sorted_insert_perm. now constructor.
Qed.

(** Elements picked out by a predicate that respects the order of keys
    keep their input order. *)
Lemma sorted_insert_filter (p : A -> bool) (x : A) (l : list A) :
  (forall y, p x = true -> p y = true ->
     (if reverse then ltb (key x) (key y) else ltb (key y) (key x)) = false) ->
  List.filter p (sorted_insert ltb key reverse x l) = List.filter p (x :: l).
Proof.
  intros Hties. induction l as [| y l IH]; [reflexivity |].
  cbn [sorted_insert].
  destruct (if reverse then ltb (key x) (key y) else ltb (key y) (key x)) eqn:Hlt;
    [| reflexivity].
  cbn [List.filter] in *. rewrite IH.
  destruct (p x) eqn:Hpx; [| reflexivity].
  destruct (p y) eqn:Hpy; [| reflexivity].
  rewrite (Hties y eq_refl Hpy) in Hlt. discriminate.
Qed.

End SortedFacts.

Lemma Qltb_lt (x y : Q) : Qltb x y = true <-> (x < y)%Q.
Proof.
  unfold Qltb. rewrite negb_true_iff. split.
  - intros Hle. apply Qnot_le_lt. intros Hyx.
    apply Qle_bool_iff in Hyx. congruence.
  - intros Hlt. destruct (Qle_bool y x) eqn:Hle; [| reflexivity].
    apply Qle_bool_iff in Hle. exfalso. now apply (Qlt_not_le x y).
Qed.

Lemma Qltb_ge (x y : Q) : Qltb x y = false <-> (y <= x)%Q.
Proof.
  unfold Qltb. rewrite negb_false_iff. apply Qle_bool_iff.
Qed.

(** ** The overlap resolver *)

Section OverlapResolver.
Import RecognizerResult.

Lemma by_score_desc_perm (l : list t) : Permutation (by_score_desc l) l.
Proof. apply sorted_perm. Qed.

Lemma score_ge_trans (a b c : t) : score_ge a b -> score_ge b c -> score_ge a c.
Proof. unfold score_ge. intros Hab Hbc. now apply (Qle_trans _ (score b)). Qed.

Lemma sorted_insert_desc (x : t) (l : list t) :
  StronglySorted score_ge l ->
  StronglySorted score_ge (sorted_insert Qltb score true x l).
Proof.
  induction 1 as [| y l Hsorted IH Hy]; cbn.
  - repeat constructor.
  - destruct (Qltb (score x) (score y)) eqn:Hlt.
    + constructor; [exact IH |].
      rewrite sorted_insert_perm.
      constructor; [| exact Hy].
      apply Qltb_lt in Hlt. now apply Qlt_le_weak.
    + apply Qltb_ge in Hlt.
      constructor; [now constructor |].
      constructor; [exact Hlt |].
      eapply List.Forall_impl; [| exact Hy].
      intros z Hz. now apply (score_ge_trans x y z).
Qed.

Lemma by_score_desc_sorted (l : list t) : StronglySorted score_ge (by_score_desc l).
Proof.
  induction l as [| x l IH]; cbn; [constructor |].
  now apply sorted_insert_desc.
Qed.

(** Ties keep their input order. *)
Lemma by_score_desc_stable (q : Q) (l : list t) :
  with_score q (by_score_desc l) = with_score q l.
Proof.
  unfold with_score. induction l as [| x l IH]; [reflexivity |].
  cbn [by_score_desc sorted fold_right].
  rewrite sorted_insert_filter.
  - cbn [List.filter]. fold (sorted Qltb score true l). unfold by_score_desc in IH.
    now rewrite IH.
  - intros y Hx Hy. apply Qltb_ge.
    apply Qeq_bool_iff in Hx, Hy. rewrite Hx, Hy. apply Qle_refl.
Qed.

Lemma overlaps_spec (r a : t) :
  overlaps r a = true <-> start a < end_ r /\ start r < end_ a.
Proof. unfold overlaps. rewrite negb_true_iff, orb_false_iff. lia. Qed.

Lemma overlaps_common_point (r a : t) :
  start r < end_ r -> start a < end_ a ->
  overlaps r a = true ->
  exists x, in_span (start r) (end_ r) x /\ in_span (start a) (end_ a) x.
Proof.
  intros Hr Ha Hov. apply overlaps_spec in Hov.
  exists (Z.max (start r) (start a)). unfold in_span. lia.
Qed.

Lemma not_overlaps_disjoint (r a : t) :
  overlaps r a = false -> disjoint_spans a r.
Proof.
  unfold overlaps, disjoint_spans, in_span.
  rewrite negb_false_iff, orb_true_iff. lia.
Qed.

Lemma filter_step_cases (filtered : list t) (r : t) :
  (filter_step filtered r = filtered ++ [r] /\
   Forall (fun a => overlaps r a = false) filtered) \/
  (filter_step filtered r = filtered /\
   exists a, In a filtered /\ overlaps r a = true).
Proof.
  unfold filter_step.
  destruct (existsb (fun accepted => overlaps r accepted) filtered) eqn:Hany; cbn [negb].
  - right. split; [reflexivity |]. apply existsb_exists in Hany. exact Hany.
  - left. split; [reflexivity |]. apply List.Forall_forall. intros a Ha.
    destruct (overlaps r a) eqn:Hov; [| reflexivity].
    assert (existsb (fun accepted => overlaps r accepted) filtered = true)
      by (apply existsb_exists; eauto).
    congruence.
Qed.

(** The scan extends the accepted list at its end, by detections taken
    from the scanned list in order. *)
Lemma scan_extends (l filtered : list t) :
  exists added, fold_left filter_step l filtered = filtered ++ added
                /\ sublist added l.
Proof.
  revert filtered. induction l as [| r l IH]; intros filtered; cbn [fold_left].
  - exists []. split; [now rewrite app_nil_r | constructor].
  - destruct (filter_step_cases filtered r) as [[-> _] | [-> _]].
    + destruct (IH (filtered ++ [r])) as (added & -> & Hsub).
      exists (r :: added). split; [now rewrite <- app_assoc | now constructor].
    + destruct (IH filtered) as (added & -> & Hsub).
      exists added. split; [reflexivity | now constructor].
Qed.

Lemma ForallOrdPairs_snoc {A : Type} (R : A -> A -> Prop) (l : list A) (x : A) :
  ForallOrdPairs R l -> Forall (fun a => R a x) l -> ForallOrdPairs R (l ++ [x]).
Proof.
  induction 1 as [| a l Ha Hl IH]; intros Hx; cbn.
  - repeat constructor.
  - apply Forall_cons_1 in Hx as [Hax Hx]. constructor.
    + apply List.Forall_app. split; [exact Ha | now repeat constructor].
    + now apply IH.
Qed.

Lemma scan_disjoint (l filtered : list t) :
  ForallOrdPairs disjoint_spans filtered ->
  ForallOrdPairs disjoint_spans (fold_left filter_step l filtered).
Proof.
  revert filtered. induction l as [| r l IH]; intros filtered Hinv; cbn [fold_left].
  - exact Hinv.
  - apply IH. destruct (filter_step_cases filtered r) as [[-> Hfree] | [-> _]].
    + apply ForallOrdPairs_snoc; [exact Hinv |].
      eapply List.Forall_impl; [| exact Hfree].
      intros a. apply not_overlaps_disjoint.
    + exact Hinv.
Qed.

(** A scanned detection is accepted, or it overlaps a detection accepted
    before it. *)
Lemma scan_decision (before after : list t) (r : t) :
  let kept := fold_left filter_step before [] in
  let final := fold_left filter_step (before ++ r :: after) [] in
  (forall a, In a kept -> In a before /\ In a final) /\
  (In r final \/ exists a, In a kept /\ overlaps r a = true).
Proof.
  cbv zeta. rewrite fold_left_app. cbn [fold_left].
  set (kept := fold_left filter_step before []).
  destruct (scan_extends before []) as (added & Hkept & Hsub).
  fold kept in Hkept. cbn [app] in Hkept.
  split.
  - intros a Ha. split.
    + rewrite Hkept in Ha. apply list_elem_of_In.
      eapply elem_of_sublist; [| exact Hsub]. now apply list_elem_of_In.
    + destruct (filter_step_cases kept r) as [[-> _] | [-> _]].
      * destruct (scan_extends after (kept ++ [r])) as (more & -> & _).
        rewrite !in_app_iff. tauto.
      * destruct (scan_extends after kept) as (more & -> & _).
        rewrite in_app_iff. tauto.
  - destruct (filter_step_cases kept r) as [[-> _] | [-> Hex]].
    + left. destruct (scan_extends after (kept ++ [r])) as (more & -> & _).
      rewrite !in_app_iff. cbn. tauto.
    + right. exact Hex.
Qed.

Lemma filter_overlapping_scan (results : list t) :
  _filter_overlapping results = fold_left filter_step (by_score_desc results) [].
Proof. destruct results; reflexivity. Qed.

End OverlapResolver.

(** C4, as the source has it: the overlap resolver scans the detections by
    descending score, ties in input order, and returns a subset with pairwise
    disjoint spans; a scanned detection is left out only if it crosses a
    detection accepted before it, whose score is therefore at least as high:
    each of the two starts before the other ends.  Two non-empty spans cross
    exactly when they intersect. *)
Theorem filter_overlapping_greedy (results : list RecognizerResult.t) :
  let scan := by_score_desc results in
  let accepted := _filter_overlapping results in
  Permutation scan results /\
  StronglySorted score_ge scan /\
  (forall q, with_score q scan = with_score q results) /\
  sublist accepted scan /\
  ForallOrdPairs disjoint_spans accepted /\
  (forall before r after, scan = before ++ r :: after ->
     In r accepted \/
     exists a,
       In a before /\ In a accepted /\ score_ge a r /\ crossing_spans r a) /\
  (forall r a, nonempty_span r -> nonempty_span a ->
     (crossing_spans r a <-> intersecting_spans r a)).
Proof.
  cbv zeta. rewrite filter_overlapping_scan.
  split; [apply by_score_desc_perm |].
  split; [apply by_score_desc_sorted |].
  split; [intros q; apply by_score_desc_stable |].
  split.
  { destruct (scan_extends (by_score_desc results) []) as (added & -> & Hsub).
    exact Hsub. }
  split; [apply scan_disjoint; constructor |].
  split.
  - intros before r after Hscan.
    pose proof (by_score_desc_sorted results) as Hsorted.
    rewrite Hscan in Hsorted |- *.
    destruct (scan_decision before after r) as [Hkept [Hin | (a & Ha & Hov)]].
    + now left.
    + right. exists a. destruct (Hkept a Ha) as [Hbefore Hfinal].
      split; [exact Hbefore |]. split; [exact Hfinal |]. split.
      * apply StronglySorted_app in Hsorted as (Hcross & _ & _).
        apply Hcross; [now apply list_elem_of_In | left].
      * now apply overlaps_spec.
  - intros r a Hr Ha. unfold crossing_spans, intersecting_spans, nonempty_span in *.
    split.
    + intros [Har Hra].
      exists (Z.max (RecognizerResult.start r) (RecognizerResult.start a)).
      unfold in_span. lia.
    + intros (x & Hxr & Hxa). unfold in_span in *. lia.
Qed.

(** An empty span inside a longer one: the detection at [[0, 5)] is left out
    for the higher-scored one at [[3, 3)], which holds no position, so the
    two do not intersect. *)
Lemma filter_overlapping_empty_span :
  _filter_overlapping
    [RecognizerResult.mk (lit "PERSON") 0 5 (1 # 2);
     RecognizerResult.mk (lit "LOCATION") 3 3 (9 # 10)]
  = [RecognizerResult.mk (lit "LOCATION") 3 3 (9 # 10)] /\
  ~ In (RecognizerResult.mk (lit "PERSON") 0 5 (1 # 2))
       (_filter_overlapping
          [RecognizerResult.mk (lit "PERSON") 0 5 (1 # 2);
           RecognizerResult.mk (lit "LOCATION") 3 3 (9 # 10)]) /\
  ~ (exists a,
       In a (_filter_overlapping
               [RecognizerResult.mk (lit "PERSON") 0 5 (1 # 2);
                RecognizerResult.mk (lit "LOCATION") 3 3 (9 # 10)]) /\
       intersecting_spans (RecognizerResult.mk (lit "PERSON") 0 5 (1 # 2)) a).
Proof.
  split; [reflexivity |]. split.
  - intros [Heq | []]. discriminate Heq.
  - intros (a & [<- | []] & x & _ & Hx). unfold in_span in Hx. cbn in Hx. lia.
Qed.

(** Two overlapping detections with the same score: the first one of the
    input is kept. *)
Example filter_overlapping_tie :
  _filter_overlapping
    [RecognizerResult.mk (lit "PERSON") 0 5 (1 # 2);
     RecognizerResult.mk (lit "LOCATION") 3 8 (1 # 2);
     RecognizerResult.mk (lit "PL_PESEL") 6 9 (9 # 10)]
  = [RecognizerResult.mk (lit "PL_PESEL") 6 9 (9 # 10);
     RecognizerResult.mk (lit "PERSON") 0 5 (1 # 2)].
Proof. reflexivity. Qed.

Lemma filter_overlapping_greedy_witness :
  In (RecognizerResult.mk (lit "LOCATION") 3 8 (1 # 2))
     (_filter_overlapping
        [RecognizerResult.mk (lit "PERSON") 0 5 (1 # 2);
         RecognizerResult.mk (lit "LOCATION") 3 8 (1 # 2);
         RecognizerResult.mk (lit "PL_PESEL") 6 9 (9 # 10)]) \/
  exists a,
    In a [RecognizerResult.mk (lit "PL_PESEL") 6 9 (9 # 10);
          RecognizerResult.mk (lit "PERSON") 0 5 (1 # 2)] /\
    In a (_filter_overlapping
            [RecognizerResult.mk (lit "PERSON") 0 5 (1 # 2);
             RecognizerResult.mk (lit "LOCATION") 3 8 (1 # 2);
             RecognizerResult.mk (lit "PL_PESEL") 6 9 (9 # 10)]) /\
    score_ge a (RecognizerResult.mk (lit "LOCATION") 3 8 (1 # 2)) /\
    crossing_spans (RecognizerResult.mk (lit "LOCATION") 3 8 (1 # 2)) a.
Proof.
  apply (proj1 (proj2 (proj2 (proj2 (proj2 (proj2 (filter_overlapping_greedy
           [RecognizerResult.mk (lit "PERSON") 0 5 (1 # 2);
            RecognizerResult.mk (lit "LOCATION") 3 8 (1 # 2);
            RecognizerResult.mk (lit "PL_PESEL") 6 9 (9 # 10)]))))))
         [RecognizerResult.mk (lit "PL_PESEL") 6 9 (9 # 10);
          RecognizerResult.mk (lit "PERSON") 0 5 (1 # 2)]
         (RecognizerResult.mk (lit "LOCATION") 3 8 (1 # 2)) []).
  reflexivity.
Defined.

(** ** Slices *)

Lemma slice_bound_nonneg (n i : Z) : 0 <= i <= n -> slice_bound n i = i.
Proof. intros Hi. unfold slice_bound. destruct (Z.ltb_spec i 0); lia. Qed.

Lemma slice_between {A : Type} (s : list A) (a b : Z) :
  0 <= a <= len s -> 0 <= b <= len s ->
  slice s (Some a) (Some b) = firstn (Z.to_nat (b - a)) (skipn (Z.to_nat a) s).
Proof. intros Ha Hb. unfold slice. now rewrite !slice_bound_nonneg. Qed.

Lemma slice_prefix {A : Type} (s : list A) (b : Z) :
  0 <= b <= len s -> slice s None (Some b) = firstn (Z.to_nat b) s.
Proof.
  intros Hb. unfold slice. rewrite slice_bound_nonneg by assumption.
  now rewrite Z.sub_0_r.
Qed.

Lemma slice_suffix {A : Type} (s : list A) (a : Z) :
  0 <= a <= len s -> slice s (Some a) None = skipn (Z.to_nat a) s.
Proof.
  intros Ha. unfold slice. rewrite slice_bound_nonneg by assumption.
  apply firstn_all2. rewrite length_skipn. unfold len in *. lia.
Qed.

Lemma len_app {A : Type} (s t : list A) : len (s ++ t) = len s + len t.
Proof. unfold len. rewrite length_app. lia. Qed.

Lemma len_nonneg {A : Type} (s : list A) : 0 <= len s.
Proof. unfold len. lia. Qed.

Lemma len_firstn {A : Type} (s : list A) (b : Z) :
  0 <= b <= len s -> len (firstn (Z.to_nat b) s) = b.
Proof. intros Hb. unfold len in *. rewrite length_firstn. lia. Qed.

(** A prefix of the text followed by anything: what lies left of the cut is
    the text's own. *)
Lemma slice_prefix_of_cut (text tail : str) (s b : Z) :
  0 <= s <= b -> b <= len text ->
  slice (slice text None (Some b) ++ tail) None (Some s) = slice text None (Some s).
Proof.
  intros Hs Hb.
  rewrite (slice_prefix text b), (slice_prefix text s) by lia.
  rewrite slice_prefix by (rewrite len_app, len_firstn; pose proof (len_nonneg tail); lia).
  rewrite firstn_app, firstn_firstn.
  replace (Z.to_nat s - length (firstn (Z.to_nat b) text))%nat with 0%nat
    by (rewrite length_firstn; unfold len in *; lia).
  rewrite firstn_O, app_nil_r. f_equal. lia.
Qed.

Lemma slice_suffix_of_cut (text tail : str) (e b : Z) :
  0 <= e <= b -> b <= len text ->
  slice (slice text None (Some b) ++ tail) (Some e) None
  = slice text (Some e) (Some b) ++ tail.
Proof.
  intros He Hb.
  rewrite (slice_prefix text b), (slice_between text e b) by lia.
  rewrite slice_suffix by (rewrite len_app, len_firstn; pose proof (len_nonneg tail); lia).
  rewrite skipn_app, skipn_firstn_comm.
  replace (Z.to_nat e - length (firstn (Z.to_nat b) text))%nat with 0%nat
    by (rewrite length_firstn; unfold len in *; lia).
  cbn [skipn]. f_equal. f_equal. lia.
Qed.

Lemma slice_whole {A : Type} (s : list A) : slice s None (Some (len s)) = s.
Proof.
  rewrite slice_prefix by (pose proof (len_nonneg s); lia).
  apply firstn_all2. unfold len. lia.
Qed.

Lemma slice_from_0 {A : Type} (s : list A) (hi : option Z) :
  slice s (Some 0) hi = slice s None hi.
Proof.
  unfold slice. replace (slice_bound (len s) 0) with 0; [reflexivity |].
  unfold slice_bound. cbn. pose proof (len_nonneg s). lia.
Qed.

(** ** Rewriting from the end of the text *)

Section Rewrite.
Import Replacement.

Lemma substitute_snoc (text : str) (pos : Z) (asc : list t) (r : t) (hi : Z) :
  substitute text pos (asc ++ [r]) hi
  = substitute text pos asc (start r) ++ replacement r
    ++ slice text (Some (end_ r)) (Some hi).
Proof.
  revert pos. induction asc as [| a asc IH]; intros pos; cbn [app substitute].
  - reflexivity.
  - rewrite IH. now rewrite <- !app_assoc.
Qed.

(** Splicing the spans in [desc], rightmost first, into a text cut at [b]
    leaves what follows the cut alone. *)
Lemma fold_splice (text : str) (desc : list t) (b : Z) (tail : str) :
  StronglySorted (fun a c => end_ c <= start a) desc ->
  Forall (fun r => 0 <= start r <= end_ r /\ end_ r <= b) desc ->
  b <= len text ->
  fold_left splice desc (slice text None (Some b) ++ tail)
  = substitute text 0 (rev desc) b ++ tail.
Proof.
  revert b tail. induction desc as [| r desc IH]; intros b tail Hsorted Hin Hb.
  - cbn [fold_left rev substitute]. now rewrite slice_from_0.
  - apply StronglySorted_inv in Hsorted as [Hsorted Hleft].
    apply Forall_cons_1 in Hin as [Hr Hin]. cbv beta in Hr.
    cbn [fold_left rev]. unfold splice at 2.
    rewrite slice_prefix_of_cut, slice_suffix_of_cut by lia.
    rewrite IH.
    + rewrite substitute_snoc. now rewrite <- !app_assoc.
    + exact Hsorted.
    + rewrite List.Forall_forall in Hin, Hleft |- *. intros c Hc.
      specialize (Hin c Hc). specialize (Hleft c Hc). cbv beta in *. lia.
    + lia.
Qed.

Lemma ForallOrdPairs_perm {A : Type} (R : A -> A -> Prop) (l l' : list A) :
  (forall a b, R a b -> R b a) ->
  Permutation l l' -> ForallOrdPairs R l -> ForallOrdPairs R l'.
Proof.
  intros Hsym. induction 1 as [| x l l' Hperm IH | x y l | l l' l'' _ IH1 _ IH2];
    intros Hall.
  - exact Hall.
  - inversion Hall as [| ? ? Hx Hl]; subst. constructor.
    + now rewrite <- Hperm.
    + now apply IH.
  - inversion Hall as [| ? ? Hy Hrest]; subst.
    inversion Hrest as [| ? ? Hx Hl]; subst.
    apply Forall_cons_1 in Hy as [Hyx Hy].
    constructor; [constructor; [now apply Hsym | exact Hx] |].
    now constructor.
  - auto.
Qed.

Lemma disjoint_replacements_sym (a b : t) :
  disjoint_replacements a b -> disjoint_replacements b a.
Proof. unfold disjoint_replacements. intros H x [Hb Ha]. now apply (H x). Qed.

(** Non-empty disjoint spans listed by ascending start follow one
    another. *)
Lemma ascending_spans_chain (text : str) (asc : list t) :
  Forall (inside_text text) asc ->
  ForallOrdPairs disjoint_replacements asc ->
  StronglySorted (fun a b => start a <= start b) asc ->
  StronglySorted (fun a b => end_ a <= start b) asc.
Proof.
  intros Hin Hdis Hsorted.
  induction Hsorted as [| a asc Hsorted IH Ha]; [constructor |].
  apply Forall_cons_1 in Hin as [Hina Hin].
  inversion Hdis as [| ? ? Hda Hdis']; subst.
  constructor; [now apply IH |].
  rewrite List.Forall_forall in Hin, Hda, Ha |- *. intros b Hb.
  specialize (Hin b Hb). specialize (Hda b Hb). specialize (Ha b Hb).
  unfold inside_text in *. unfold disjoint_replacements, in_span in Hda.
  destruct (Z.le_gt_cases (end_ a) (start b)) as [| Hlt]; [assumption |].
  exfalso. apply (Hda (start b)). lia.
Qed.

Lemma StronglySorted_rev {A : Type} (R : A -> A -> Prop) (l : list A) :
  StronglySorted R l -> StronglySorted (fun a b => R b a) (rev l).
Proof.
  induction 1 as [| x l Hl IH Hx]; cbn; [constructor |].
  apply StronglySorted_app. split; [| split].
  - intros a b Ha Hb. apply list_elem_of_In in Ha, Hb.
    destruct Hb as [<- | []]. rewrite List.Forall_forall in Hx.
    apply Hx. now apply in_rev.
  - exact IH.
  - repeat constructor.
Qed.

Lemma sorted_insert_start_desc (x : t) (l : list t) :
  StronglySorted (fun a b => start b <= start a) l ->
  StronglySorted (fun a b => start b <= start a) (sorted_insert Z.ltb start true x l).
Proof.
  induction 1 as [| y l Hsorted IH Hy]; cbn.
  - repeat constructor.
  - destruct (Z.ltb_spec (start x) (start y)) as [Hlt | Hge].
    + constructor; [exact IH |]. rewrite sorted_insert_perm.
      constructor; [lia | exact Hy].
    + constructor; [now constructor |].
      constructor; [exact Hge |].
      eapply List.Forall_impl; [| exact Hy]. cbv beta. intros z Hz. lia.
Qed.

Lemma sorted_start_desc (l : list t) :
  StronglySorted (fun a b => start b <= start a) (sorted Z.ltb start true l).
Proof.
  induction l as [| x l IH]; cbn; [constructor |].
  now apply sorted_insert_start_desc.
Qed.

End Rewrite.



(** The overlap resolver accepts an empty span at the start of another one,
    and the rewriting then loses its text when it is listed first. *)
Example splice_empty_span_at_start :
  _filter_overlapping
    [RecognizerResult.mk (lit "PERSON") 2 6 (1 # 2);
     RecognizerResult.mk (lit "LOCATION") 2 2 (9 # 10)]
  = [RecognizerResult.mk (lit "LOCATION") 2 2 (9 # 10);
     RecognizerResult.mk (lit "PERSON") 2 6 (1 # 2)] /\
  apply_replacements (lit "abcdefgh")
    [Replacement.mk 2 2 [] (lit "YY") (lit "LOCATION") (9 # 10);
     Replacement.mk 2 6 (lit "cdef") (lit "X") (lit "PERSON") (1 # 2)]
  = lit "abXefgh".
Proof. split; reflexivity. Qed.


(** ** The casing matcher *)

Lemma all_for_forallb {A : Type} (xs : list A) (f : A -> outcome bool) (g : A -> bool) :
  (forall x, In x xs -> f x = Ok (g x)) -> all_for xs f = Ok (forallb g xs).
Proof.
  induction xs as [| x xs IH]; intros Hfg; cbn; [reflexivity |].
  rewrite (Hfg x) by now left. cbn [bind].
  destruct (g x); cbn; [| reflexivity]. apply IH. intros y Hy. apply Hfg. now right.
Qed.

(** The matcher never raises, and its result is given by the guarded
    rules. *)
Lemma match_casing_guarded {U : UnicodeData} (source replacement : str) :
  _match_casing source replacement = Ok (casing_rules_guarded source replacement).
Proof.
  unfold _match_casing, casing_rules_guarded.
  destruct (isupper source); [reflexivity |].
  assert (Hwords : forall words,
    all_for (List.filter (fun w => 1 <? len w) words) (fun w =>
      c <- getitem w 0 ;; Ok (isupper [c] && islower (slice w (Some 1) None)))
    = Ok (title_cased words)).
  { intros words. unfold title_cased. apply all_for_forallb.
    intros w Hw. apply filter_In in Hw as [_ Hlen].
    destruct w as [| c rest]; [discriminate Hlen |].
    change 0 with (Z.of_nat 0). rewrite getitem_nat. cbn [item nth_error bind isupper].
    rewrite slice_suffix by (unfold len; cbn [length]; lia). reflexivity. }
  assert (Hcap : List.map (fun w : str => match w with [] => w | _ => capitalize w end)
                   (split replacement)
                 = List.map capitalize (split replacement)).
  { apply map_ext. intros [| c w]; reflexivity. }
  destruct (split source) as [| w words]; [reflexivity |].
  rewrite Hwords. cbn [bind]. rewrite Hcap.
  destruct (title_cased (w :: words)); reflexivity.
Qed.

(** C6, as the source has it: an entirely uppercase source uppercases the
    replacement; otherwise, if the source has at least one word and every
    word of length greater than 1 has an uppercase first character and a
    lowercase remainder, every word of the replacement is capitalized;
    otherwise the replacement is returned unchanged.  The matcher never
    raises. *)
Theorem match_casing_rules {U : UnicodeData} (source replacement : str) :
  _match_casing source replacement = Ok (casing_rules_guarded source replacement).
Proof. apply match_casing_guarded. Qed.

(** The second rule as the specification words it holds of a source without
    words, and the matcher leaves the replacement alone there. *)
Lemma match_casing_blank_source :
  @casing_rules latin_ucd (lit " ") (lit "jan kowalski") = lit "Jan Kowalski" /\
  @_match_casing latin_ucd (lit " ") (lit "jan kowalski") = Ok (lit "jan kowalski") /\
  @_match_casing latin_ucd (lit " ") (lit "jan kowalski")
    <> Ok (@casing_rules latin_ucd (lit " ") (lit "jan kowalski")).
Proof. vm_compute. repeat split. discriminate. Qed.

Example match_casing_fidelity :
  @_match_casing latin_ucd (lit "JAN KOWALSKI") (lit "tadeusz elwart")
    = Ok (lit "TADEUSZ ELWART") /\
  @_match_casing latin_ucd (lit "Jan Kowalski") (lit "tadeusz elwart")
    = Ok (lit "Tadeusz Elwart") /\
  @_match_casing latin_ucd (lit "jan kowalski") (lit "tadeusz elwart")
    = Ok (lit "tadeusz elwart") /\
  @_match_casing latin_ucd (lit "Jan z Warszawy") (lit "tadeusz elwart")
    = Ok (lit "Tadeusz Elwart") /\
  @_match_casing latin_ucd (lit "Jan McAdam") (lit "tadeusz elwart")
    = Ok (lit "tadeusz elwart").
Proof. vm_compute. repeat split. Qed.

(** ** The seed function *)

Lemma fold_be_value (bytes : list Z) (acc : Z) :
  fold_left (fun acc b => acc * 256 + b) bytes acc
  = acc * 256 ^ len bytes + be_value bytes.
Proof.
  unfold be_value. revert acc. induction bytes as [| b bytes IH]; intros acc.
  - change (len (@nil Z)) with 0. cbn [fold_left]. lia.
  - cbn [fold_left]. rewrite IH, (IH (0 * 256 + b)).
    unfold len. cbn [length]. rewrite Nat2Z.inj_succ, Z.pow_succ_r by lia. lia.
Qed.

Lemma be_value_app (xs ys : list Z) :
  be_value (xs ++ ys) = be_value xs * 256 ^ len ys + be_value ys.
Proof. unfold be_value at 1. rewrite fold_left_app. apply fold_be_value. Qed.

Lemma be_value_bound (bytes : list Z) :
  Forall (fun b => 0 <= b < 256) bytes -> 0 <= be_value bytes < 256 ^ len bytes.
Proof.
  induction bytes as [| b bytes IH] using rev_ind; intros Hall.
  - change (be_value []) with 0. change (len (@nil Z)) with 0. lia.
  - apply List.Forall_app in Hall as [Hall Hb]. apply Forall_cons_1 in Hb as [Hb _].
    specialize (IH Hall). rewrite be_value_app, len_app.
    change (len [b]) with 1. change (be_value [b]) with (0 * 256 + b).
    rewrite Z.pow_add_r by (pose proof (len_nonneg bytes); lia).
    change (256 ^ 1) with 256. nia.
Qed.

Lemma first_bits_prefix (k : Z) (first rest : list Z) :
  k = 8 * len first -> Forall (fun b => 0 <= b < 256) rest ->
  first_bits k (first ++ rest) = be_value first.
Proof.
  intros -> Hrest. unfold first_bits. rewrite be_value_app, len_app.
  replace (8 * (len first + len rest) - 8 * len first) with (8 * len rest) by lia.
  pose proof (len_nonneg rest).
  replace (2 ^ (8 * len rest)) with (256 ^ len rest)
    by (change 256 with (2 ^ 8); rewrite <- Z.pow_mul_r by lia; reflexivity).
  pose proof (be_value_bound rest Hrest).
  rewrite Z.div_add_l by lia. rewrite Z.div_small by lia. lia.
Qed.

Lemma digest_bytes (msg : list Z) :
  length (SHA256.digest msg) = 32%nat /\
  Forall (fun b => 0 <= b < 256) (SHA256.digest msg).
Proof.
  unfold SHA256.digest.
  destruct (fold_left SHA256.compress _ SHA256.H0) as [[[[[[[a b] c] d] e] f] g] h].
  split; [reflexivity |].
  cbn [flat_map SHA256.be_bytes seq rev app List.map].
  repeat (apply List.Forall_cons; [apply Z.mod_pos_bound; lia |]).
  apply List.Forall_nil.
Qed.

Lemma hex_value_hex_char (d : Z) :
  0 <= d < 16 -> hex_value (SHA256.hex_char d) = Some d.
Proof.
  intros Hd. apply (range_check (fun d => hex_value (SHA256.hex_char d) = Some d) 16).
  - vm_compute. reflexivity.
  - exact Hd.
Qed.

Lemma int_hex_from_bytes (bytes : list Z) (acc : Z) :
  Forall (fun b => 0 <= b < 256) bytes ->
  int_hex_from acc (flat_map hex_pair bytes)
  = Ok (fold_left (fun acc b => acc * 256 + b) bytes acc).
Proof.
  intros Hall. revert acc. induction Hall as [| b bytes Hb _ IH]; intros acc.
  - reflexivity.
  - cbn [flat_map hex_pair app int_hex_from fold_left].
    rewrite !hex_value_hex_char by divlia.
    rewrite IH. do 2 f_equal. divlia.
Qed.

Lemma hexdigest_seed (msg : list Z) :
  int_base16 (slice (SHA256.hexdigest msg) None (Some 16))
  = Ok (first_bits 64 (SHA256.digest msg)).
Proof.
  unfold SHA256.hexdigest. change (fun b : Z => _) with hex_pair.
  destruct (digest_bytes msg) as [Hlen Hbytes].
  destruct (SHA256.digest msg)
    as [| b0 [| b1 [| b2 [| b3 [| b4 [| b5 [| b6 [| b7 rest]]]]]]]];
    try discriminate Hlen.
  change (b0 :: b1 :: b2 :: b3 :: b4 :: b5 :: b6 :: b7 :: rest)
    with ([b0; b1; b2; b3; b4; b5; b6; b7] ++ rest) in *.
  apply List.Forall_app in Hbytes as [Hfirst Hrest].
  rewrite flat_map_app.
  rewrite slice_prefix
    by (rewrite len_app; pose proof (len_nonneg (flat_map hex_pair rest));
        change (len (flat_map hex_pair [b0; b1; b2; b3; b4; b5; b6; b7])) with 16; lia).
  change (Z.to_nat 16) with (length (flat_map hex_pair [b0; b1; b2; b3; b4; b5; b6; b7])).
  rewrite firstn_app, Nat.sub_diag, firstn_O, app_nil_r, firstn_all.
  rewrite (first_bits_prefix 64 _ rest) by (reflexivity || exact Hrest).
  unfold int_base16.
  change (match flat_map hex_pair [b0; b1; b2; b3; b4; b5; b6; b7] with
          | [] => Raise ValueError
          | _ :: _ => int_hex_from 0 (flat_map hex_pair [b0; b1; b2; b3; b4; b5; b6; b7])
          end)
    with (int_hex_from 0 (flat_map hex_pair [b0; b1; b2; b3; b4; b5; b6; b7])).
  now rewrite int_hex_from_bytes.
Qed.

(** C9: the seed is a function of the salt, the value and the entity type
    alone, and it is the first 64 bits (the first 16 hexadecimal digits) of
    the SHA-256 digest of the salt, the lowercased value and the entity type,
    read as an unsigned integer; it raises only when that string cannot be
    encoded. *)
Theorem compute_seed_first_64_bits {U : UnicodeData} (self : Pseudonymizer)
    (value entity_type : str) :
  _compute_seed self value entity_type = seed_spec (salt self) value entity_type /\
  (forall seed, _compute_seed self value entity_type = Ok seed -> 0 <= seed < 2 ^ 64) /\
  (forall self' value' entity_type',
      salt self' = salt self -> value' = value -> entity_type' = entity_type ->
      _compute_seed self' value' entity_type' = _compute_seed self value entity_type).
Proof.
  assert (Hspec : forall self0 v t,
             _compute_seed self0 v t = seed_spec (salt self0) v t).
  { intros self0 v t. unfold _compute_seed, seed_spec.
    destruct (encode_utf8 _) as [encoded | e]; [| reflexivity].
    cbn [bind]. apply hexdigest_seed. }
  split; [apply Hspec |]. split.
  - intros seed. rewrite Hspec. unfold seed_spec.
    destruct (encode_utf8 _) as [encoded | e]; [| discriminate].
    cbn [bind]. intros [= <-].
    destruct (digest_bytes encoded) as [Hlen Hbytes].
    unfold first_bits, len. rewrite Hlen.
    pose proof (be_value_bound _ Hbytes) as Hbound. unfold len in Hbound.
    rewrite Hlen in Hbound.
    change (8 * Z.of_nat 32 - 64) with 192.
    change (256 ^ Z.of_nat 32) with (2 ^ 64 * 2 ^ 192) in Hbound.
    split; [apply Z.div_pos; lia |].
    apply Z.div_lt_upper_bound; lia.
  - intros self' value' entity_type' Hsalt -> ->.
    now rewrite !Hspec, Hsalt.
Qed.

Lemma compute_seed_first_64_bits_witness :
  0 <= 5820606644696593213 < 2 ^ 64 /\
  @_compute_seed latin_ucd
     {| language := lit "en"; salt := lit "moj-sekret"; locale := lit "en_US" |}
     (lit "Jan") (lit "PERSON")
  = @_compute_seed latin_ucd sample_self (lit "Jan") (lit "PERSON").
Proof.
  split.
  - apply (proj1 (proj2 (@compute_seed_first_64_bits latin_ucd sample_self
                           (lit "Jan") (lit "PERSON")))).
    vm_compute. reflexivity.
  - apply (proj2 (proj2 (@compute_seed_first_64_bits latin_ucd sample_self
                           (lit "Jan") (lit "PERSON")))); reflexivity.
Defined.

(** The seed of ["Jan"] as a [PERSON] under the salt ["moj-sekret"]: the
    first 16 hexadecimal digits of the digest of ["moj-sekretjanPERSON"]. *)
Example compute_seed_jan :
  @_compute_seed latin_ucd sample_self (lit "Jan") (lit "PERSON")
  = Ok 5820606644696593213 /\
  @_compute_seed latin_ucd sample_self (lit "JAN") (lit "PERSON")
  = Ok 5820606644696593213 /\
  SHA256.hexdigest (lit "abc")
  = lit "ba7816bf8f01cfea414140de5dae2223b00361a396177a9cb410ff61f20015ad" /\
  @_compute_seed latin_ucd sample_self [0xD800] (lit "PERSON")
  = Raise UnicodeEncodeError.
Proof. vm_compute. repeat split. Qed.

(** ** The replacement orchestrator *)

Section Orchestrator.
Context {U : UnicodeData} {R : PyRandom} {F : Faker} {E : AnalyzerEngine}.
Variable self : Pseudonymizer.

(** What one pass of the preparing loop does when it does not raise: it
    appends the record of the detection, whose replacement text is the
    cache entry of its key, and it keeps every earlier cache entry. *)
Lemma prepare_step_Ok (text : str) (replacements : list Replacement.t)
    (mapping : gmap (str * str) str) (d : RecognizerResult.t)
    (st' : list Replacement.t * gmap (str * str) str) :
  prepare_step self text (replacements, mapping) d = Ok st' ->
  exists r mapping',
    st' = (replacements ++ [r], mapping') /\
    detection_of r = d /\
    Replacement.original r
    = slice text (Some (RecognizerResult.start d)) (Some (RecognizerResult.end_ d)) /\
    mapping' !! key_of r = Some (Replacement.replacement r) /\
    (forall k v, mapping !! k = Some v -> mapping' !! k = Some v).
Proof.
  unfold prepare_step.
  set (original := slice text _ _).
  set (key := (lower (strip original), RecognizerResult.entity_type d)).
  destruct (mapping !! key) as [v |] eqn:Hkey.
  - cbn [bind]. rewrite Hkey. cbn [bind]. intros [= <-].
    eexists _, mapping. split; [reflexivity |].
    split; [destruct d; reflexivity |]. split; [reflexivity |].
    split; [exact Hkey | auto].
  - destruct (_generate_replacement self original _) as [generated | e];
      [| discriminate].
    cbn [bind].
    destruct (if bool_decide _ then _ else _) as [cased | e]; [| discriminate].
    cbn [bind]. rewrite lookup_insert_eq. cbn [bind]. intros [= <-].
    eexists _, (<[key := cased]> mapping). split; [reflexivity |].
    split; [destruct d; reflexivity |]. split; [reflexivity |].
    split; [apply lookup_insert_eq |].
    intros k v Hk. rewrite lookup_insert_ne; [exact Hk | congruence].
Qed.

Lemma for_each_prepare (text : str) (results : list RecognizerResult.t)
    (replacements replacements' : list Replacement.t)
    (mapping mapping' : gmap (str * str) str) :
  for_each results (prepare_step self text) (replacements, mapping)
  = Ok (replacements', mapping') ->
  (forall r, In r replacements ->
     mapping !! key_of r = Some (Replacement.replacement r)) ->
  exists added,
    replacements' = replacements ++ added /\
    List.map detection_of added = results /\
    Forall (fun r => Replacement.original r
                     = slice text (Some (Replacement.start r))
                                  (Some (Replacement.end_ r))) added /\
    (forall r, In r replacements' ->
       mapping' !! key_of r = Some (Replacement.replacement r)).
Proof.
  revert replacements mapping.
  induction results as [| d results IH]; intros replacements mapping Hrun Hinv.
  - cbn in Hrun. injection Hrun as <- <-. exists [].
    rewrite app_nil_r. repeat split; [constructor | exact Hinv].
  - cbn [for_each] in Hrun.
    destruct (prepare_step self text (replacements, mapping) d) as [st' | e] eqn:Hstep;
      [| discriminate].
    cbn [bind] in Hrun.
    apply prepare_step_Ok in Hstep as (r & mapping1 & -> & Hd & Horig & Hr & Hkeep).
    apply IH in Hrun as (added & -> & Hmap & Hall & Hinv').
    + exists (r :: added). rewrite <- app_assoc in Hinv' |- *. split; [reflexivity |].
      split; [cbn; now rewrite Hd, Hmap |]. split; [| exact Hinv'].
      apply List.Forall_cons; [| exact Hall]. rewrite Horig, <- Hd. reflexivity.
    + intros r0 Hr0. apply in_app_iff in Hr0 as [Hr0 | [<- | []]].
      * apply Hkeep, Hinv, Hr0.
      * exact Hr.
Qed.

(** What a run that does not raise returns. *)
Lemma pseudonymize_with_details_Ok (text : str) (res : PseudonymizationResult.t) :
  pseudonymize_with_details self text = Ok res ->
  PseudonymizationResult.original_text res = text /\
  PseudonymizationResult.pseudonymized_text res
  = apply_replacements text (PseudonymizationResult.replacements res) /\
  List.map detection_of (PseudonymizationResult.replacements res) = analyze self text /\
  Forall (fun r => Replacement.original r
                   = slice text (Some (Replacement.start r))
                                (Some (Replacement.end_ r)))
         (PseudonymizationResult.replacements res) /\
  (forall r1 r2,
      In r1 (PseudonymizationResult.replacements res) ->
      In r2 (PseudonymizationResult.replacements res) ->
      key_of r1 = key_of r2 ->
      Replacement.replacement r1 = Replacement.replacement r2).
Proof.
  unfold pseudonymize_with_details.
  destruct (for_each _ _ _) as [[replacements mapping] | e] eqn:Hrun; [| discriminate].
  cbn [bind]. intros [= <-]. cbn.
  apply for_each_prepare in Hrun as (added & -> & Hmap & Hall & Hinv);
    [| intros r []].
  cbn [app] in *. repeat split; try assumption.
  intros r1 r2 H1 H2 Hkey.
  apply Hinv in H1, H2. rewrite Hkey in H1. congruence.
Qed.

Hypothesis HU : ascii_digits_decimal U.
Hypothesis HR : randint_in_range R.
Hypothesis HF : faker_available (locale self) = true.

Lemma generate_replacement_returns (original entity_type : str) :
  returns (_compute_seed self original entity_type) ->
  returns (_generate_replacement self original entity_type).
Proof.
  intros [seed Hseed]. unfold _generate_replacement, _create_faker.
  rewrite Hseed, HF. cbn [bind dict_get].
  repeat (case_bool_decide; [try (eexists; reflexivity) |]).
  - destruct (generate_pesel_digits HU HR seed) as (ds & _ & _ & ->). eexists; reflexivity.
  - destruct (generate_nip_digits HR seed true) as (ds & _ & _ & _ & ->).
    eexists; reflexivity.
  - destruct (9 <? len _).
    + destruct (generate_regon_digits HR seed 14) as (ds & _ & _ & ->); [now right |].
      eexists; reflexivity.
    + destruct (generate_regon_digits HR seed 9) as (ds & _ & _ & ->); [now left |].
      eexists; reflexivity.
  - eexists; reflexivity.
Qed.

Lemma prepare_step_returns (text : str) (st : list Replacement.t * gmap (str * str) str)
    (d : RecognizerResult.t) :
  returns (_compute_seed self
             (slice text (Some (RecognizerResult.start d)) (Some (RecognizerResult.end_ d)))
             (RecognizerResult.entity_type d)) ->
  returns (prepare_step self text st d).
Proof.
  intros Hseed. destruct st as [replacements mapping]. unfold prepare_step.
  set (original := slice text _ _) in *.
  set (key := (lower (strip original), RecognizerResult.entity_type d)).
  destruct (mapping !! key) as [v |] eqn:Hkey.
  - cbn [bind]. rewrite Hkey. eexists; reflexivity.
  - destruct (generate_replacement_returns _ _ Hseed) as [generated ->].
    cbn [bind]. case_bool_decide.
    + rewrite match_casing_guarded. cbn [bind]. rewrite lookup_insert_eq.
      eexists; reflexivity.
    + cbn [bind]. rewrite lookup_insert_eq. eexists; reflexivity.
Qed.

(** Once the analyzer has answered, the run returns whenever Faker has the
    locale and the seed of every accepted detection can be computed, that is
    whenever the salt, the lowercased substring and the entity type can be
    encoded. *)
Lemma pseudonymize_with_details_returns (text : str) :
  seeds_computable self text ->
  returns (pseudonymize_with_details self text).
Proof.
  unfold seeds_computable.
  intros Hseeds. unfold pseudonymize_with_details.
  assert (Hloop : forall st, returns (for_each (analyze self text)
                                        (prepare_step self text) st)).
  { induction Hseeds as [| d results Hd _ IH]; intros st.
    - eexists; reflexivity.
    - cbn [for_each]. destruct (prepare_step_returns text st d Hd) as [st' ->].
      cbn [bind]. apply IH. }
  destruct (Hloop ([], ∅)) as [[replacements mapping] ->].
  eexists; reflexivity.
Qed.

End Orchestrator.

Lemma StronglySorted_sublist {A : Type} (R : A -> A -> Prop) (k l : list A) :
  sublist k l -> StronglySorted R l -> StronglySorted R k.
Proof.
  induction 1 as [| x k l Hsub IH | x k l Hsub IH]; intros Hsorted.
  - constructor.
  - apply StronglySorted_inv in Hsorted as [Hl Hx]. constructor; [now apply IH |].
    rewrite List.Forall_forall in Hx |- *. intros y Hy. apply Hx.
    apply list_elem_of_In. eapply elem_of_sublist; [| exact Hsub].
    now apply list_elem_of_In.
  - apply StronglySorted_inv in Hsorted as [Hl _]. now apply IH.
Qed.

Lemma sample_run :
  @pseudonymize_with_details latin_ucd lcg sample_faker
    (fixed_analyzer sample_detections) sample_self (lit "Jan 123 JAN")
  = Ok sample_result.
Proof. vm_compute. reflexivity. Qed.

(** C2, as the source has it: the replacements of the result a run returns
    are listed in the order in which the overlap resolver accepted the
    detections, by descending score with ties in the detector's order, one
    record per accepted detection; the list is not sorted by start, only the
    rewriting sorts it. *)
Theorem replacements_in_acceptance_order
    {U : UnicodeData} {R : PyRandom} {F : Faker} {E : AnalyzerEngine}
    (self : Pseudonymizer) (text : str) (res : PseudonymizationResult.t) :
  pseudonymize_with_details self text = Ok res ->
  List.map detection_of (PseudonymizationResult.replacements res)
  = _filter_overlapping (analyzer_analyze text (language self)) /\
  StronglySorted score_ge
    (List.map detection_of (PseudonymizationResult.replacements res)) /\
  PseudonymizationResult.original_text res = text /\
  PseudonymizationResult.pseudonymized_text res
  = apply_replacements text (PseudonymizationResult.replacements res).
Proof.
  intros Hres.
  apply pseudonymize_with_details_Ok in Hres as (Horig & Htext & Hmap & _ & _).
  split; [exact Hmap |]. split; [| split; assumption].
  rewrite Hmap. unfold analyze. rewrite filter_overlapping_scan.
  destruct (scan_extends (by_score_desc (analyzer_analyze text (language self))) [])
    as (added & -> & Hsub).
  eapply StronglySorted_sublist; [exact Hsub | apply by_score_desc_sorted].
Qed.

(** On ["Jan 123 JAN"] the PESEL at offset 4 has the highest score and is
    listed first. *)
Lemma replacements_not_by_start :
  exists res,
    @pseudonymize_with_details latin_ucd lcg sample_faker
      (fixed_analyzer sample_detections) sample_self (lit "Jan 123 JAN") = Ok res /\
    List.map Replacement.start (PseudonymizationResult.replacements res) = [4; 0; 8] /\
    ~ ascending_starts (PseudonymizationResult.replacements res).
Proof.
  eexists. split; [vm_compute; reflexivity |]. split; [reflexivity |].
  intros Hasc. apply StronglySorted_inv in Hasc as [_ Hfirst].
  apply Forall_cons_1 in Hfirst as [Hle _]. cbn in Hle. lia.
Qed.

Lemma replacements_in_acceptance_order_witness :
  List.map detection_of (PseudonymizationResult.replacements sample_result)
  = _filter_overlapping sample_detections /\
  StronglySorted score_ge
    [RecognizerResult.mk (lit "PL_PESEL") 4 7 (9 # 10);
     RecognizerResult.mk (lit "PERSON") 0 3 (1 # 2);
     RecognizerResult.mk (lit "PERSON") 8 11 (1 # 2)].
Proof.
  destruct (@replacements_in_acceptance_order latin_ucd lcg sample_faker
              (fixed_analyzer sample_detections) sample_self (lit "Jan 123 JAN")
              sample_result sample_run)
    as (Hmap & Hsorted & _).
  split; [exact Hmap | exact Hsorted].
Defined.

(** C3: within one call, two accepted detections with the same normalized
    key (the original substring trimmed and lowercased, and the entity type)
    get the same replacement text in their records.  The records follow the
    accepted detections one to one and hold the substring of their span. *)
Theorem same_key_same_replacement
    {U : UnicodeData} {R : PyRandom} {F : Faker} {E : AnalyzerEngine}
    (self : Pseudonymizer) (text : str) (res : PseudonymizationResult.t) :
  pseudonymize_with_details self text = Ok res ->
  List.map detection_of (PseudonymizationResult.replacements res) = analyze self text /\
  Forall (fun r => Replacement.original r
                   = slice text (Some (Replacement.start r))
                                (Some (Replacement.end_ r)))
         (PseudonymizationResult.replacements res) /\
  (forall r1 r2,
      In r1 (PseudonymizationResult.replacements res) ->
      In r2 (PseudonymizationResult.replacements res) ->
      key_of r1 = key_of r2 ->
      Replacement.replacement r1 = Replacement.replacement r2).
Proof.
  intros Hres.
  apply pseudonymize_with_details_Ok in Hres as (_ & _ & Hmap & Horig & Hsame).
  repeat split; assumption.
Qed.

Lemma same_key_same_replacement_witness :
  Replacement.replacement
    (Replacement.mk 0 3 (lit "Jan") (lit "Tadeusz Elwart") (lit "PERSON") (1 # 2))
  = Replacement.replacement
      (Replacement.mk 8 11 (lit "JAN") (lit "Tadeusz Elwart") (lit "PERSON") (1 # 2)).
Proof.
  apply (proj2 (proj2 (@same_key_same_replacement latin_ucd lcg sample_faker
                          (fixed_analyzer sample_detections)
                          sample_self (lit "Jan 123 JAN") sample_result sample_run))).
  - right. left. reflexivity.
  - right. right. left. reflexivity.
  - vm_compute. reflexivity.
Defined.

(** * Further properties *)

(** ** The validators on digit strings *)

(** Dismantling a list of eleven digits. *)
Ltac eleven_digits ds Hlen Hds :=
  destruct ds as [| ?d [| ?d [| ?d [| ?d [| ?d [| ?d [| ?d [| ?d [| ?d [| ?d [| ?d [| ? ?]]]]]]]]]]]];
  try discriminate Hlen;
  repeat (apply Forall_cons_1 in Hds as [? Hds]).

Section ValidatorsOnDigits.
Context {U : UnicodeData}.
Hypothesis HU : ascii_digits_decimal U.

Lemma validate_pesel_render (ds : list Z) (c : Z) :
  length ds = 10%nat -> Forall is_digit ds -> is_digit c ->
  validate_pesel (render (ds ++ [c])) = Ok (pesel_control ds =? c).
Proof.
  intros Hlen Hds Hc.
  assert (Hall : Forall is_digit (ds ++ [c])).
  { apply List.Forall_app. split; [exact Hds |].
    apply List.Forall_cons; [exact Hc | apply List.Forall_nil]. }
  unfold validate_pesel.
  rewrite !replace_render by (lia || exact Hall).
  rewrite len_render. unfold len at 1. rewrite length_app, Hlen. cbn [length Nat.add].
  change (Z.of_nat 11 =? 11) with true.
  rewrite isdigit_render by (exact HU || exact Hall || now destruct ds).
  cbn [negb orb].
  rewrite (sum_for_render HU 10 PESEL_WEIGHTS)
    by (reflexivity || exact Hall || (rewrite length_app; cbn; lia)).
  cbn [bind]. rewrite weighted_sum_app by (cbn; lia).
  fold (pesel_control ds). rewrite render_app.
  replace 10 with (Z.of_nat (length (render ds)))
    by (unfold render; rewrite length_map, Hlen; reflexivity).
  rewrite getitem_nat. change (render [c]) with [digit_char c].
  rewrite item_app_end. cbn [bind].
  rewrite (int_of_digit_char HU) by exact Hc. reflexivity.
Qed.

Lemma validate_nip_render (ds : list Z) (c : Z) :
  length ds = 9%nat -> Forall is_digit ds -> is_digit c ->
  validate_nip (render (ds ++ [c]))
  = Ok (negb (nip_control ds =? 10) && (nip_control ds =? c)).
Proof.
  intros Hlen Hds Hc.
  assert (Hall : Forall is_digit (ds ++ [c])).
  { apply List.Forall_app. split; [exact Hds |].
    apply List.Forall_cons; [exact Hc | apply List.Forall_nil]. }
  unfold validate_nip.
  rewrite !replace_render by (lia || exact Hall).
  rewrite len_render. unfold len at 1. rewrite length_app, Hlen. cbn [length Nat.add].
  change (Z.of_nat 10 =? 10) with true.
  rewrite isdigit_render by (exact HU || exact Hall || now destruct ds).
  cbn [negb orb].
  rewrite (sum_for_render HU 9 NIP_WEIGHTS)
    by (reflexivity || exact Hall || (rewrite length_app; cbn; lia)).
  cbn [bind]. rewrite weighted_sum_app by (cbn; lia).
  fold (nip_control ds).
  destruct (nip_control ds =? 10); [reflexivity |].
  cbn [negb andb]. rewrite render_app.
  replace 9 with (Z.of_nat (length (render ds)))
    by (unfold render; rewrite length_map, Hlen; reflexivity).
  rewrite getitem_nat. change (render [c]) with [digit_char c].
  rewrite item_app_end. cbn [bind].
  rewrite (int_of_digit_char HU) by exact Hc. reflexivity.
Qed.

Lemma validate_regon_render (length : Z) (ds : list Z) (c : Z) :
  length = 9 \/ length = 14 -> len ds = length - 1 -> Forall is_digit ds ->
  is_digit c ->
  validate_regon (render (ds ++ [c])) = Ok (regon_control length ds =? c).
Proof.
  intros Hlength Hlen Hds Hc.
  assert (Hall : Forall is_digit (ds ++ [c])).
  { apply List.Forall_app. split; [exact Hds |].
    apply List.Forall_cons; [exact Hc | apply List.Forall_nil]. }
  assert (Hw : len (regon_weights length) = length - 1)
    by (destruct Hlength; subst; reflexivity).
  unfold validate_regon.
  rewrite !replace_render by (lia || exact Hall).
  rewrite isdigit_render by (exact HU || exact Hall || now destruct ds).
  cbn [negb].
  assert (Hlen' : len (render (ds ++ [c])) = length).
  { rewrite len_render. unfold len in *. rewrite length_app. cbn [List.length]. lia. }
  rewrite Hlen'.
  assert (Hsum : forall weights, weights = regon_weights length ->
    (checksum <- sum_for (range (len weights)) (fun i =>
        ch <- getitem (render (ds ++ [c])) i ;;
        d <- int_of_char ch ;; w <- getitem weights i ;; Ok (d * w)) ;;
     let control := checksum mod 11 in
     let control := if control =? 10 then 0 else control in
     ch <- getitem (render (ds ++ [c])) (-1) ;;
     last <- int_of_char ch ;; Ok (control =? last))
    = Ok (regon_control length ds =? c)).
  { intros weights ->.
    rewrite (sum_for_render HU _ (regon_weights length))
      by (reflexivity || exact Hall || (rewrite length_app; unfold len in *; lia)).
    cbn [bind]. rewrite weighted_sum_app by (unfold len in *; lia).
    cbv zeta. fold (regon_control length ds).
    rewrite render_app. change (render [c]) with [digit_char c].
    rewrite getitem_neg1. cbn [bind].
    rewrite (int_of_digit_char HU) by exact Hc. reflexivity. }
  destruct Hlength; subst length.
  - change (9 =? 9) with true. cbn [bind]. now apply Hsum.
  - change (14 =? 9) with false. change (14 =? 14) with true. cbn [bind]. now apply Hsum.
Qed.

(** X1: [validate_pesel] detects every single-digit error: replacing one
    digit of a valid eleven-digit PESEL by a different digit, the control
    digit included, gives a string the validator rejects. *)
Theorem pesel_detects_single_digit_error (ds : list Z) (i : nat) (d' : Z) :
  length ds = 11%nat -> Forall is_digit ds -> is_digit d' ->
  (i < 11)%nat -> ds !! i <> Some d' ->
  validate_pesel (render ds) = Ok true ->
  validate_pesel (render (<[i := d']> ds)) = Ok false.
Proof.
  intros Hlen Hds Hd' Hi Hne Hvalid.
  eleven_digits ds Hlen Hds.
  destruct i as [| [| [| [| [| [| [| [| [| [| [| i]]]]]]]]]]]; [.. | lia]; cbn in Hne;
    cbn [insert list_insert];
    match goal with
    | |- validate_pesel (render [?a0; ?a1; ?a2; ?a3; ?a4; ?a5; ?a6; ?a7; ?a8; ?a9; ?c]) = _ =>
        change (render [a0; a1; a2; a3; a4; a5; a6; a7; a8; a9; c])
          with (render ([a0; a1; a2; a3; a4; a5; a6; a7; a8; a9] ++ [c]))
    end;
    match type of Hvalid with
    | validate_pesel (render [?a0; ?a1; ?a2; ?a3; ?a4; ?a5; ?a6; ?a7; ?a8; ?a9; ?c]) = _ =>
        change (render [a0; a1; a2; a3; a4; a5; a6; a7; a8; a9; c])
          with (render ([a0; a1; a2; a3; a4; a5; a6; a7; a8; a9] ++ [c])) in Hvalid
    end;
    rewrite validate_pesel_render in Hvalid |- * by (reflexivity || assumption || forall_digits);
    injection Hvalid as Hvalid; apply Z.eqb_eq in Hvalid;
    f_equal; apply Z.eqb_neq;
    unfold pesel_control in *; cbn [weighted_sum PESEL_WEIGHTS] in *;
    unfold is_digit in *;
    match type of Hne with
    | Some ?x <> Some _ => assert (x <> d') by (intros ->; now apply Hne)
    end;
    divlia.
Qed.

(** X2: [validate_nip] detects every single-digit error: replacing one digit
    of a valid ten-digit NIP by a different digit gives a string the
    validator rejects. *)
Theorem nip_detects_single_digit_error (ds : list Z) (i : nat) (d' : Z) :
  length ds = 10%nat -> Forall is_digit ds -> is_digit d' ->
  (i < 10)%nat -> ds !! i <> Some d' ->
  validate_nip (render ds) = Ok true ->
  validate_nip (render (<[i := d']> ds)) = Ok false.
Proof.
  intros Hlen Hds Hd' Hi Hne Hvalid.
  destruct ds as [| d0 [| d1 [| d2 [| d3 [| d4 [| d5 [| d6 [| d7 [| d8 [| d9 [| ? ?]]]]]]]]]]];
    try discriminate Hlen.
  repeat (apply Forall_cons_1 in Hds as [? Hds]).
  destruct i as [| [| [| [| [| [| [| [| [| [| i]]]]]]]]]]; [.. | lia]; cbn in Hne;
    cbn [insert list_insert];
    match goal with
    | |- validate_nip (render [?a0; ?a1; ?a2; ?a3; ?a4; ?a5; ?a6; ?a7; ?a8; ?c]) = _ =>
        change (render [a0; a1; a2; a3; a4; a5; a6; a7; a8; c])
          with (render ([a0; a1; a2; a3; a4; a5; a6; a7; a8] ++ [c]))
    end;
    match type of Hvalid with
    | validate_nip (render [?a0; ?a1; ?a2; ?a3; ?a4; ?a5; ?a6; ?a7; ?a8; ?c]) = _ =>
        change (render [a0; a1; a2; a3; a4; a5; a6; a7; a8; c])
          with (render ([a0; a1; a2; a3; a4; a5; a6; a7; a8] ++ [c])) in Hvalid
    end;
    rewrite validate_nip_render in Hvalid |- * by (reflexivity || assumption || forall_digits);
    injection Hvalid as Hvalid; apply andb_true_iff in Hvalid as [_ Hvalid];
    apply Z.eqb_eq in Hvalid;
    f_equal; apply andb_false_iff; right; apply Z.eqb_neq;
    unfold nip_control in *; cbn [weighted_sum NIP_WEIGHTS] in *;
    unfold is_digit in *;
    match type of Hne with
    | Some ?x <> Some _ => assert (x <> d') by (intros ->; now apply Hne)
    end;
    divlia.
Qed.

(** X3: [validate_regon] on fourteen digits does not look at the fifth one,
    whose weight is 0: the verdict is the same whatever digit stands at
    index 4. *)
Theorem regon14_ignores_fifth_digit (ds : list Z) (d' : Z) :
  length ds = 14%nat -> Forall is_digit ds -> is_digit d' ->
  validate_regon (render (<[4%nat := d']> ds)) = validate_regon (render ds).
Proof.
  intros Hlen Hds Hd'.
  destruct ds as [| d0 [| d1 [| d2 [| d3 [| d4 [| d5 [| d6 [| d7 [| d8 [| d9
                 [| d10 [| d11 [| d12 [| d13 [| ? ?]]]]]]]]]]]]]]];
    try discriminate Hlen.
  repeat (apply Forall_cons_1 in Hds as [? Hds]).
  cbn [insert list_insert].
  change (render [d0; d1; d2; d3; d'; d5; d6; d7; d8; d9; d10; d11; d12; d13])
    with (render ([d0; d1; d2; d3; d'; d5; d6; d7; d8; d9; d10; d11; d12] ++ [d13])).
  change (render [d0; d1; d2; d3; d4; d5; d6; d7; d8; d9; d10; d11; d12; d13])
    with (render ([d0; d1; d2; d3; d4; d5; d6; d7; d8; d9; d10; d11; d12] ++ [d13])).
  rewrite !(validate_regon_render 14)
    by first [now right | reflexivity | assumption | forall_digits].
  unfold regon_control, regon_weights. change (14 =? 9) with false. cbv iota.
  cbn [weighted_sum REGON_14_WEIGHTS].
  rewrite !Z.mul_0_r. reflexivity.
Qed.

End ValidatorsOnDigits.

Lemma pesel_detects_single_digit_error_witness :
  @validate_pesel latin_ucd (lit "44051401359") = Ok true /\
  @validate_pesel latin_ucd (lit "44071401359") = Ok false.
Proof.
  split; [vm_compute; reflexivity |].
  apply (@pesel_detects_single_digit_error latin_ucd latin_ascii_digits
           [4; 4; 0; 5; 1; 4; 0; 1; 3; 5; 9] 3%nat 7).
  - reflexivity.
  - repeat (apply List.Forall_cons; [unfold is_digit; lia |]). apply List.Forall_nil.
  - unfold is_digit. lia.
  - lia.
  - discriminate.
  - vm_compute. reflexivity.
Defined.

Lemma nip_detects_single_digit_error_witness :
  @validate_nip latin_ucd (lit "1234563218") = Ok true /\
  @validate_nip latin_ucd (lit "1234563210") = Ok false.
Proof.
  split; [vm_compute; reflexivity |].
  apply (@nip_detects_single_digit_error latin_ucd latin_ascii_digits
           [1; 2; 3; 4; 5; 6; 3; 2; 1; 8] 9%nat 0).
  - reflexivity.
  - repeat (apply List.Forall_cons; [unfold is_digit; lia |]). apply List.Forall_nil.
  - unfold is_digit. lia.
  - lia.
  - discriminate.
  - vm_compute. reflexivity.
Defined.

Lemma regon14_ignores_fifth_digit_witness :
  @validate_regon latin_ucd (lit "12345678512347") = Ok true /\
  @validate_regon latin_ucd (lit "12340678512347")
  = @validate_regon latin_ucd (lit "12345678512347").
Proof.
  split; [vm_compute; reflexivity |].
  apply (@regon14_ignores_fifth_digit latin_ucd latin_ascii_digits
           [1; 2; 3; 4; 5; 6; 7; 8; 5; 1; 2; 3; 4; 7] 0).
  - reflexivity.
  - repeat (apply List.Forall_cons; [unfold is_digit; lia |]). apply List.Forall_nil.
  - unfold is_digit. lia.
Defined.

(** ** The generators *)

Lemma generate_nip_grouped {R : PyRandom} (seed : Z) :
  generate_nip seed true = (bare <- generate_nip seed false ;; Ok (nip_grouped bare)).
Proof.
  unfold generate_nip, nip_grouped.
  destruct (randints 9 (Random seed) 0 9) as [nip_9 rng].
  destruct (nip_checksum nip_9) as [checksum | e]; [| reflexivity].
  cbn [bind]. destruct (checksum mod 11 =? 10); [| reflexivity].
  destruct (getitem nip_9 8) as [d8 | e]; [| reflexivity]. cbn [bind].
  destruct (setitem nip_9 8 ((d8 + 1) mod 10)) as [repaired | e]; [| reflexivity].
  cbn [bind]. destruct (nip_checksum repaired) as [checksum' | e]; reflexivity.
Qed.

(** X4: the two renderings of a NIP agree: for one seed the grouped
    rendering is the bare one, of ten characters, cut into groups of 3, 3, 2
    and 2 by hyphens at offsets 3, 7 and 10, and removing the hyphens gives
    the bare rendering back. *)
Theorem nip_renderings_agree {R : PyRandom} (HR : randint_in_range R) (seed : Z) :
  exists bare,
    generate_nip seed false = Ok bare /\
    generate_nip seed true = Ok (nip_grouped bare) /\
    len bare = 10 /\ len (nip_grouped bare) = 13 /\
    replace 45 [] (nip_grouped bare) = bare /\
    getitem (nip_grouped bare) 3 = Ok 45 /\
    getitem (nip_grouped bare) 7 = Ok 45 /\
    getitem (nip_grouped bare) 10 = Ok 45.
Proof.
  destruct (generate_nip_digits HR seed false) as (ds & Hlen & Hds & Hne & Hgen).
  exists (render (ds ++ [nip_control ds])). split; [exact Hgen |].
  split; [rewrite generate_nip_grouped, Hgen; reflexivity |].
  destruct ds as [| d0 [| d1 [| d2 [| d3 [| d4 [| d5 [| d6 [| d7 [| d8 [| ? ?]]]]]]]]]];
    try discriminate Hlen.
  repeat (apply Forall_cons_1 in Hds as [? Hds]).
  assert (Hc : is_digit (nip_control [d0; d1; d2; d3; d4; d5; d6; d7; d8]))
    by now apply is_digit_mod11.
  set (c := nip_control [d0; d1; d2; d3; d4; d5; d6; d7; d8]) in *.
  repeat split; try reflexivity.
  change (nip_grouped (render ([d0; d1; d2; d3; d4; d5; d6; d7; d8] ++ [c])))
    with (render [d0; d1; d2] ++ lit "-" ++ render [d3; d4; d5] ++ lit "-"
          ++ render [d6; d7] ++ lit "-" ++ render [d8; c]).
  rewrite !replace_app.
  change (replace 45 [] (lit "-")) with (@nil Z).
  rewrite !replace_render by first [lia | forall_digits].
  reflexivity.
Qed.

Lemma nip_renderings_agree_witness :
  exists bare,
    @generate_nip lcg 12345 false = Ok bare /\
    @generate_nip lcg 12345 true = Ok (nip_grouped bare) /\
    len bare = 10 /\ len (nip_grouped bare) = 13 /\
    replace 45 [] (nip_grouped bare) = bare /\
    getitem (nip_grouped bare) 3 = Ok 45 /\
    getitem (nip_grouped bare) 7 = Ok 45 /\
    getitem (nip_grouped bare) 10 = Ok 45.
Proof. exact (nip_renderings_agree lcg_in_range 12345). Defined.

Lemma randints_app {R : PyRandom} (n m : nat) (st : RandomState) (a b : Z) :
  fst (randints (n + m) st a b)
  = fst (randints n st a b) ++ fst (randints m (snd (randints n st a b)) a b).
Proof.
  revert st. induction n as [| n IH]; intros st; cbn.
  - reflexivity.
  - destruct (randint st a b) as [x st1]. specialize (IH st1).
    destruct (randints (n + m) st1 a b) as [xs st2].
    destruct (randints n st1 a b) as [ys st3]. cbn in *. now rewrite IH.
Qed.

Lemma generate_regon_draws {R : PyRandom} (HR : randint_in_range R) (seed length : Z) :
  length = 9 \/ length = 14 ->
  generate_regon seed length
  = Ok (let ds := fst (randints (Z.to_nat (length - 1)) (Random seed) 0 9) in
        render (ds ++ [regon_control length ds])).
Proof.
  intros Hlength. unfold generate_regon.
  assert (Hw : len (regon_weights length) = length - 1)
    by (destruct Hlength; subst; reflexivity).
  replace (negb ((length =? 9) || (length =? 14))) with false
    by (destruct Hlength; subst; reflexivity).
  destruct (randints_spec HR (Z.to_nat (length - 1)) (Random seed) 0 9 ltac:(lia))
    as [Hlen Hds].
  destruct (randints (Z.to_nat (length - 1)) (Random seed) 0 9) as [digits rng].
  cbn [fst] in *. change (Forall is_digit digits) in Hds.
  fold (regon_weights length).
  rewrite (sum_for_getitem (length - 1) (regon_weights length) digits)
    by (unfold len in *; lia).
  cbn [bind]. fold (regon_control length digits).
  rewrite (join_str_of_int digits Hds).
  rewrite (str_of_int_digit _ (is_digit_regon_control length digits)).
  now rewrite render_app.
Qed.

Lemma setitem_firstn {A : Type} (s s' : list A) (i : nat) (x : A) :
  setitem s (Z.of_nat i) x = Ok s' -> firstn i s' = firstn i s.
Proof.
  unfold setitem. destruct (Z.ltb_spec (Z.of_nat i) 0); [lia |].
  destruct (_ && _) eqn:Hin; [| discriminate]. intros [= <-].
  apply andb_true_iff in Hin as [_ Hlt]. apply Z.ltb_lt in Hlt. unfold len in Hlt.
  rewrite Nat2Z.id, firstn_app, firstn_firstn, Nat.min_id.
  rewrite length_firstn. replace (i - Nat.min i (length s))%nat with 0%nat by lia.
  cbn. now rewrite app_nil_r.
Qed.

Lemma generate_nip_draws {R : PyRandom} (HR : randint_in_range R) (seed : Z) :
  exists ds,
    length ds = 9%nat /\
    firstn 8 ds = firstn 8 (fst (randints 9 (Random seed) 0 9)) /\
    generate_nip seed false = Ok (render (ds ++ [nip_control ds])).
Proof.
  unfold generate_nip.
  destruct (randints_spec HR 9 (Random seed) 0 9 ltac:(lia)) as [Hlen Hds].
  destruct (randints 9 (Random seed) 0 9) as [nip_9 rng]. cbn [fst] in *.
  change (Forall is_digit nip_9) in Hds.
  rewrite (nip_checksum_eq nip_9 Hlen). cbn [bind].
  assert (Hfinish : forall ds, Forall is_digit ds -> nip_control ds <> 10 ->
            join [] (List.map str_of_int (ds ++ [nip_control ds]))
            = render (ds ++ [nip_control ds])).
  { intros ds Hall Hne. apply join_str_of_int, List.Forall_app. split; [exact Hall |].
    apply List.Forall_cons; [now apply is_digit_mod11 | apply List.Forall_nil]. }
  destruct (Z.eqb_spec (weighted_sum NIP_WEIGHTS nip_9 mod 11) 10) as [Hten | Hne].
  - destruct (nip_repair nip_9 Hlen Hds Hten)
      as (d8 & repaired & Hget & Hset & Hlen' & Hds' & _ & Hne').
    rewrite Hget. cbn [bind]. rewrite Hset. cbn [bind].
    rewrite (nip_checksum_eq repaired Hlen'). cbn [bind].
    fold (nip_control repaired).
    destruct (Z.eqb_spec (nip_control repaired) 10) as [| _]; [contradiction |].
    exists repaired. split; [exact Hlen' |].
    split; [exact (setitem_firstn nip_9 repaired 8 _ Hset) |].
    now rewrite (Hfinish repaired Hds' Hne').
  - cbn [bind]. fold (nip_control nip_9) in Hne |- *.
    exists nip_9. split; [exact Hlen |]. split; [reflexivity |].
    now rewrite (Hfinish nip_9 Hds Hne).
Qed.

Lemma firstn_render_app (n : nat) (ds rest : list Z) :
  (n <= length ds)%nat -> firstn n (render (ds ++ rest)) = render (firstn n ds).
Proof.
  intros Hn. unfold render. rewrite <- firstn_map, map_app, firstn_app, length_map.
  replace (n - length ds)%nat with 0%nat by lia. cbn. now rewrite app_nil_r.
Qed.

(** X5: identifiers generated from one seed are built from the same draws:
    the bare NIP, the 9-digit REGON and the 14-digit REGON of a seed share
    their first eight digits. *)
Theorem same_seed_shared_prefix {R : PyRandom} (HR : randint_in_range R) (seed : Z) :
  exists nip regon9 regon14,
    generate_nip seed false = Ok nip /\
    generate_regon seed 9 = Ok regon9 /\
    generate_regon seed 14 = Ok regon14 /\
    firstn 8 nip = firstn 8 regon9 /\
    firstn 8 regon14 = firstn 8 regon9.
Proof.
  destruct (generate_nip_draws HR seed) as (ds & Hlen & Hprefix & Hnip).
  eexists _, _, _. split; [exact Hnip |].
  split; [apply (generate_regon_draws HR seed 9); now left |].
  split; [apply (generate_regon_draws HR seed 14); now right |].
  cbv zeta. change (Z.to_nat (9 - 1)) with 8%nat. change (Z.to_nat (14 - 1)) with (8 + 5)%nat.
  destruct (randints_spec HR 8 (Random seed) 0 9 ltac:(lia)) as [Hlen8 _].
  pose proof (randints_app 8 1 (Random seed) 0 9) as H9.
  pose proof (randints_app 8 5 (Random seed) 0 9) as H13.
  change (8 + 1)%nat with 9%nat in H9.
  rewrite !firstn_render_app by (rewrite ?H13, ?length_app; lia).
  rewrite Hprefix, H9, H13.
  rewrite !firstn_app, Hlen8, Nat.sub_diag. cbn [firstn].
  now rewrite !app_nil_r.
Qed.

Lemma same_seed_shared_prefix_witness :
  exists nip regon9 regon14,
    @generate_nip lcg 12345 false = Ok nip /\
    @generate_regon lcg 12345 9 = Ok regon9 /\
    @generate_regon lcg 12345 14 = Ok regon14 /\
    firstn 8 nip = firstn 8 regon9 /\
    firstn 8 regon14 = firstn 8 regon9.
Proof. exact (same_seed_shared_prefix lcg_in_range 12345). Defined.

(** X6: the first six digits of a generated PESEL are a birth date [YYMMDD]
    with the year in 50..99, the month in 01..12 and the day in 01..28, a
    date that exists in every month; the PESEL has eleven ASCII digits. *)
Theorem generated_pesel_birth_date {U : UnicodeData} {R : PyRandom}
    (HU : ascii_digits_decimal U) (HR : randint_in_range R) (seed : Z) :
  exists ds,
    generate_pesel seed = Ok (render ds) /\
    length ds = 11%nat /\ Forall is_digit ds /\
    50 <= two_digits ds 0 <= 99 /\
    1 <= two_digits ds 2 <= 12 /\
    1 <= two_digits ds 4 <= 28.
Proof.
  unfold generate_pesel.
  pose proof (HR (Random seed) 50 99 ltac:(lia)) as Hyear.
  destruct (randint (Random seed) 50 99) as [year rng1].
  pose proof (HR rng1 1 12 ltac:(lia)) as Hmonth.
  destruct (randint rng1 1 12) as [month rng2].
  pose proof (HR rng2 1 28 ltac:(lia)) as Hday.
  destruct (randint rng2 1 28) as [day rng3].
  pose proof (HR rng3 0 999 ltac:(lia)) as Hserial.
  destruct (randint rng3 0 999) as [serial rng4].
  pose proof (HR rng4 0 9 ltac:(lia)) as Hgender.
  destruct (randint rng4 0 9) as [gender rng5].
  cbn [fst] in *.
  set (ds := [year / 10; year mod 10; month / 10; month mod 10;
              day / 10; day mod 10;
              serial / 100; (serial / 10) mod 10; serial mod 10; gender]).
  assert (Hds : Forall is_digit ds).
  { unfold ds, is_digit. repeat (apply List.Forall_cons; [cbv beta; divlia |]).
    apply List.Forall_nil. }
  exists (ds ++ [pesel_control ds]).
  rewrite !format_0d_2, format_0d_3, (str_of_int_digit gender) by (unfold is_digit; lia).
  change (render [year / 10; year mod 10] ++ render [month / 10; month mod 10]
          ++ render [day / 10; day mod 10]
          ++ render [serial / 100; (serial / 10) mod 10; serial mod 10]
          ++ render [gender]) with (render ds).
  rewrite (sum_for_render HU 10 PESEL_WEIGHTS ds) by (reflexivity || cbn; lia || exact Hds).
  cbn [bind]. fold (pesel_control ds).
  rewrite (str_of_int_digit _ (is_digit_pesel_control ds)), render_app.
  split; [reflexivity |]. split; [reflexivity |]. split.
  { apply List.Forall_app. split; [exact Hds |].
    apply List.Forall_cons; [apply is_digit_pesel_control | apply List.Forall_nil]. }
  unfold two_digits, ds. cbn [nth app]. repeat split; divlia.
Qed.

Lemma generated_pesel_birth_date_witness :
  exists ds,
    @generate_pesel latin_ucd lcg 12345 = Ok (render ds) /\
    length ds = 11%nat /\ Forall is_digit ds /\
    50 <= two_digits ds 0 <= 99 /\
    1 <= two_digits ds 2 <= 12 /\
    1 <= two_digits ds 4 <= 28.
Proof. exact (generated_pesel_birth_date latin_ascii_digits lcg_in_range 12345). Defined.

Lemma latin_ascii_isdigit_decimal : ascii_isdigit_decimal latin_ucd.
Proof.
  intros c Hc Hdigit. cbn in Hdigit |- *.
  unfold Latin.isdigit, Latin.decimal, Latin.between in *.
  destruct ((48 <=? c) && (c <=? 57)) eqn:Hrange; [discriminate |].
  cbn in Hdigit. rewrite !orb_true_iff, !Z.eqb_eq in Hdigit. lia.
Qed.

(** X7: on a string of ASCII characters each validator returns a verdict, it
    does not raise, and the verdict is [False] when the string without spaces
    and hyphens has not the length of the family; the database must class no
    ASCII character as a digit that is not a decimal digit. *)
Theorem validators_return_on_ascii {U : UnicodeData}
    (HA : ascii_isdigit_decimal U) (s : str) :
  is_ascii s ->
  (exists b, validate_pesel s = Ok b /\
             (len (replace 45 [] (replace 32 [] s)) <> 11 -> b = false)) /\
  (exists b, validate_nip s = Ok b /\
             (len (replace 32 [] (replace 45 [] s)) <> 10 -> b = false)) /\
  (exists b, validate_regon s = Ok b /\
             (len (replace 45 [] (replace 32 [] s)) <> 9 ->
              len (replace 45 [] (replace 32 [] s)) <> 14 -> b = false)).
Proof.
  intros Hascii.
  assert (Hdec : digits_are_decimal s).
  { intros c Hc. unfold is_ascii in Hascii. rewrite List.Forall_forall in Hascii.
    apply HA, Hascii, Hc. }
  destruct (validators_on_decimal_strings s) as (Hpesel & Hnip & Hregon & Hret).
  destruct (Hret Hdec) as ([b1 H1] & [b2 H2] & [b3 H3]).
  split; [| split].
  - exists b1. split; [exact H1 |]. intros Hlen.
    rewrite Hpesel in H1 by now left. congruence.
  - exists b2. split; [exact H2 |]. intros Hlen.
    rewrite Hnip in H2 by now left. congruence.
  - exists b3. split; [exact H3 |]. intros H9 H14.
    rewrite Hregon in H3 by (left; split; assumption). congruence.
Qed.

Lemma validators_return_on_ascii_witness :
  exists b, @validate_regon latin_ucd (lit "PESEL: 44051401359") = Ok b /\
            (len (replace 45 [] (replace 32 [] (lit "PESEL: 44051401359"))) <> 9 ->
             len (replace 45 [] (replace 32 [] (lit "PESEL: 44051401359"))) <> 14 ->
             b = false).
Proof.
  refine (proj2 (proj2 (@validators_return_on_ascii latin_ucd
                          latin_ascii_isdigit_decimal (lit "PESEL: 44051401359") _))).
  unfold is_ascii, lit. simpl.
  repeat (apply List.Forall_cons; [vm_compute; split; [discriminate | reflexivity] |]).
  apply List.Forall_nil.
Defined.

(** ** The overlap resolver, continued *)

Section OverlapResolverMore.
Import RecognizerResult.

Lemma sorted_insert_head (x : t) (l : list t) :
  Forall (score_ge x) l -> sorted_insert Qltb score true x l = x :: l.
Proof.
  intros Hx. destruct l as [| y l]; [reflexivity |].
  apply Forall_cons_1 in Hx as [Hy _]. cbn.
  now rewrite (proj2 (Qltb_ge (score x) (score y)) Hy).
Qed.

Lemma by_score_desc_fixed (l : list t) :
  StronglySorted score_ge l -> by_score_desc l = l.
Proof.
  induction 1 as [| x l Hsorted IH Hx]; [reflexivity |].
  unfold by_score_desc in *. cbn [sorted fold_right].
  fold (sorted Qltb score true l). rewrite IH. now apply sorted_insert_head.
Qed.

Lemma ForallOrdPairs_app_cross {A : Type} (R : A -> A -> Prop) (l1 l2 : list A) :
  ForallOrdPairs R (l1 ++ l2) -> forall a b, In a l1 -> In b l2 -> R a b.
Proof.
  induction l1 as [| x l1 IH]; intros Hall a b Ha Hb; [destruct Ha |].
  inversion Hall as [| ? ? Hx Hrest]; subst.
  destruct Ha as [<- | Ha].
  - rewrite List.Forall_forall in Hx. apply Hx, in_app_iff. now right.
  - now apply IH.
Qed.

Lemma ForallOrdPairs_weaken {A : Type} (R S : A -> A -> Prop) (l : list A) :
  (forall a b, R a b -> S a b) -> ForallOrdPairs R l -> ForallOrdPairs S l.
Proof.
  intros HRS. induction 1 as [| x l Hx Hl IH]; constructor; [| exact IH].
  eapply List.Forall_impl; [| exact Hx]. intros b. apply HRS.
Qed.

(** What is accepted later does not overlap what was accepted before. *)
Lemma scan_free (l filtered : list t) :
  ForallOrdPairs (fun a b => overlaps b a = false) filtered ->
  ForallOrdPairs (fun a b => overlaps b a = false) (fold_left filter_step l filtered).
Proof.
  revert filtered. induction l as [| r l IH]; intros filtered Hinv; cbn [fold_left].
  - exact Hinv.
  - apply IH. destruct (filter_step_cases filtered r) as [[-> Hfree] | [-> _]].
    + now apply ForallOrdPairs_snoc.
    + exact Hinv.
Qed.

(** Scanning detections none of which overlaps an earlier one accepts them
    all. *)
Lemma rescan (l filtered : list t) :
  ForallOrdPairs (fun a b => overlaps b a = false) (filtered ++ l) ->
  fold_left filter_step l filtered = filtered ++ l.
Proof.
  revert filtered. induction l as [| r l IH]; intros filtered Hfree; cbn [fold_left].
  - now rewrite app_nil_r.
  - assert (Hstep : filter_step filtered r = filtered ++ [r]).
    { destruct (filter_step_cases filtered r) as [[-> _] | [_ (a & Ha & Hov)]];
        [reflexivity |].
      rewrite (ForallOrdPairs_app_cross _ _ _ Hfree a r Ha (or_introl eq_refl)) in Hov.
      discriminate. }
    rewrite Hstep, IH; rewrite <- app_assoc; [reflexivity | exact Hfree].
Qed.

Lemma overlaps_sym (a b : t) : overlaps a b = overlaps b a.
Proof.
  destruct (overlaps a b) eqn:Hab, (overlaps b a) eqn:Hba; try reflexivity.
  - apply overlaps_spec in Hab. rewrite <- Hba. symmetry. apply overlaps_spec. lia.
  - apply overlaps_spec in Hba. rewrite <- Hab. apply overlaps_spec. lia.
Qed.

End OverlapResolverMore.

(** X8: the overlap resolver is idempotent: resolving its own output again
    changes nothing. *)
Theorem filter_overlapping_idempotent (results : list RecognizerResult.t) :
  _filter_overlapping (_filter_overlapping results) = _filter_overlapping results.
Proof.
  rewrite (filter_overlapping_scan (_filter_overlapping results)).
  rewrite (filter_overlapping_scan results).
  set (out := fold_left filter_step (by_score_desc results) []).
  assert (Hsorted : StronglySorted score_ge out).
  { destruct (scan_extends (by_score_desc results) []) as (added & Hout & Hsub).
    unfold out. rewrite Hout. cbn [app].
    eapply StronglySorted_sublist; [exact Hsub | apply by_score_desc_sorted]. }
  rewrite (by_score_desc_fixed out Hsorted).
  apply (rescan out []). cbn [app]. apply scan_free. constructor.
Qed.

(** X9: the detection with the highest score, the first such one in the
    detector's order, is always accepted, and it heads the result. *)
Theorem top_scored_detection_kept (results : list RecognizerResult.t) :
  results <> [] ->
  exists top rest,
    _filter_overlapping results = top :: rest /\
    In top results /\
    Forall (score_ge top) results /\
    hd_error (with_score (RecognizerResult.score top) results) = Some top.
Proof.
  intros Hne. rewrite filter_overlapping_scan.
  pose proof (by_score_desc_perm results) as Hperm.
  pose proof (by_score_desc_sorted results) as Hsorted.
  pose proof (by_score_desc_stable) as Hstable.
  destruct (by_score_desc results) as [| top tail] eqn:Hscan.
  { apply Permutation_nil in Hperm. contradiction. }
  exists top. cbn [fold_left]. unfold filter_step at 2. cbn [existsb negb app].
  destruct (scan_extends tail [top]) as (added & -> & _).
  exists added. split; [reflexivity |].
  split; [apply list_elem_of_In; rewrite <- Hperm; left |].
  split.
  - rewrite <- Hperm. apply StronglySorted_inv in Hsorted as [_ Htop].
    apply List.Forall_cons; [apply Qle_refl | exact Htop].
  - rewrite <- (Hstable (RecognizerResult.score top) results), Hscan.
    unfold with_score. cbn [List.filter].
    now rewrite (proj2 (Qeq_bool_iff _ _) (Qeq_refl (RecognizerResult.score top))).
Qed.

Lemma top_scored_detection_kept_witness :
  exists top rest,
    _filter_overlapping sample_detections = top :: rest /\
    In top sample_detections /\
    Forall (score_ge top) sample_detections /\
    hd_error (with_score (RecognizerResult.score top) sample_detections) = Some top.
Proof. apply top_scored_detection_kept. discriminate. Defined.

(** X10: when no two detections overlap, the resolver discards nothing: its
    result is the input by descending score. *)
Theorem non_overlapping_all_kept (results : list RecognizerResult.t) :
  ForallOrdPairs (fun a b => overlaps a b = false) results ->
  _filter_overlapping results = by_score_desc results /\
  Permutation (_filter_overlapping results) results.
Proof.
  intros Hfree.
  assert (Hscan : _filter_overlapping results = by_score_desc results).
  { rewrite filter_overlapping_scan. apply (rescan (by_score_desc results) []).
    cbn [app].
    apply (ForallOrdPairs_perm (fun a b => overlaps b a = false) results).
    - intros a b Hab. now rewrite overlaps_sym.
    - symmetry. apply by_score_desc_perm.
    - eapply ForallOrdPairs_weaken; [| exact Hfree].
      intros a b Hab. cbv beta. now rewrite overlaps_sym. }
  split; [exact Hscan |]. rewrite Hscan. apply by_score_desc_perm.
Qed.

Lemma non_overlapping_all_kept_witness :
  _filter_overlapping
    [RecognizerResult.mk (lit "PERSON") 0 3 (1 # 2);
     RecognizerResult.mk (lit "PL_PESEL") 4 7 (9 # 10);
     RecognizerResult.mk (lit "PERSON") 8 11 (1 # 2)]
  = [RecognizerResult.mk (lit "PL_PESEL") 4 7 (9 # 10);
     RecognizerResult.mk (lit "PERSON") 0 3 (1 # 2);
     RecognizerResult.mk (lit "PERSON") 8 11 (1 # 2)].
Proof.
  refine (proj1 (non_overlapping_all_kept
                   [RecognizerResult.mk (lit "PERSON") 0 3 (1 # 2);
                    RecognizerResult.mk (lit "PL_PESEL") 4 7 (9 # 10);
                    RecognizerResult.mk (lit "PERSON") 8 11 (1 # 2)] _)).
  repeat (apply FOP_cons;
          [repeat (apply List.Forall_cons; [reflexivity |]); apply List.Forall_nil |]).
  apply FOP_nil.
Defined.

(** ** [_generate_replacement] *)

Lemma len_mask (n : Z) :
  0 <= n -> len (repeat_str (lit "*") n) = n /\ Forall (eq 42) (repeat_str (lit "*") n).
Proof.
  intros Hn. unfold repeat_str. rewrite <- (Z2Nat.id n) at 2 by exact Hn.
  induction (Z.to_nat n) as [| k [IHlen IHall]].
  - split; [reflexivity | constructor].
  - cbn [List.repeat List.concat]. rewrite len_app, IHlen.
    split; [change (len (lit "*")) with 1; lia |].
    apply List.Forall_cons; [reflexivity | exact IHall].
Qed.

(** X11: an entity type that is no key of the generator table gets a mask,
    as many asterisks as the original has characters, provided the seed can
    be computed and Faker has the locale.  Both happen before the table is
    consulted: an original that cannot be encoded raises the encoding error,
    and a locale Faker does not have raises [AttributeError], although the
    mask needs neither the seed nor the generator. *)
Theorem mask_for_unmapped_category {U : UnicodeData} {R : PyRandom} {F : Faker}
    (self : Pseudonymizer) (original entity_type : str) :
  ~ In entity_type GENERATOR_KEYS ->
  (forall seed, _compute_seed self original entity_type = Ok seed ->
     _generate_replacement self original entity_type
     = if faker_available (locale self)
       then Ok (repeat_str (lit "*") (len original))
       else Raise AttributeError) /\
  (forall e, _compute_seed self original entity_type = Raise e ->
     _generate_replacement self original entity_type = Raise e) /\
  len (repeat_str (lit "*") (len original)) = len original /\
  Forall (eq 42) (repeat_str (lit "*") (len original)).
Proof.
  intros Hkey. split; [| split; [| apply len_mask, len_nonneg]].
  - intros seed Hseed. unfold _generate_replacement, _create_faker. rewrite Hseed.
    destruct (faker_available (locale self)); [| reflexivity].
    cbn [bind dict_get].
    repeat (case_bool_decide;
            [exfalso; apply Hkey;
             match goal with H : _ = entity_type |- _ => rewrite <- H end;
             unfold GENERATOR_KEYS; cbn [In]; tauto |]).
    reflexivity.
  - intros e Hseed. unfold _generate_replacement. now rewrite Hseed.
Qed.

Lemma mask_for_unmapped_category_witness :
  @_generate_replacement latin_ucd lcg sample_faker sample_self
    (lit "ABC1234") (lit "NRP")
  = Ok (lit "*******") /\
  @_generate_replacement latin_ucd lcg sample_faker
    {| language := lit "pl"; salt := lit "moj-sekret"; locale := lit "xx_XX" |}
    (lit "ABC1234") (lit "NRP")
  = Raise AttributeError.
Proof.
  assert (Hkey : ~ In (lit "NRP") GENERATOR_KEYS).
  { unfold GENERATOR_KEYS. cbn [In]. intros Hin.
    repeat (destruct Hin as [Hin | Hin]; [vm_compute in Hin; discriminate |]).
    exact Hin. }
  split.
  - refine (proj1 (@mask_for_unmapped_category latin_ucd lcg sample_faker sample_self
                     (lit "ABC1234") (lit "NRP") Hkey) _ _).
    vm_compute. reflexivity.
  - refine (proj1 (@mask_for_unmapped_category latin_ucd lcg sample_faker
                     {| language := lit "pl"; salt := lit "moj-sekret";
                        locale := lit "xx_XX" |}
                     (lit "ABC1234") (lit "NRP") Hkey) _ _).
    vm_compute. reflexivity.
Defined.

(** X12: the replacement generated for a national identifier passes the
    validator of its family; a NIP replacement is the grouped rendering, and a
    REGON replacement has 14 digits when the original without spaces and
    hyphens has more than 9 characters, and 9 digits otherwise.  A
    replacement is generated whenever the seed can be computed and Faker has
    the locale. *)
Theorem national_id_replacement_validates
    {U : UnicodeData} {R : PyRandom} {F : Faker}
    (HU : ascii_digits_decimal U) (HR : randint_in_range R)
    (self : Pseudonymizer) (original entity_type : str) :
  (forall id, _generate_replacement self original entity_type = Ok id ->
     (entity_type = lit "PL_PESEL" -> validate_pesel id = Ok true /\ len id = 11) /\
     (entity_type = lit "PL_NIP" -> validate_nip id = Ok true /\ len id = 13) /\
     (entity_type = lit "PL_REGON" ->
      validate_regon id = Ok true /\
      len id = if 9 <? len (replace 45 [] (replace 32 [] original))
               then 14 else 9)) /\
  (In entity_type [lit "PL_PESEL"; lit "PL_NIP"; lit "PL_REGON"] ->
   returns (_compute_seed self original entity_type) ->
   faker_available (locale self) = true ->
   returns (_generate_replacement self original entity_type)).
Proof.
  assert (Hgen :
    forall seed, _compute_seed self original entity_type = Ok seed ->
      faker_available (locale self) = true ->
      (entity_type = lit "PL_PESEL" ->
       exists pesel, _generate_replacement self original entity_type = Ok pesel /\
                     validate_pesel pesel = Ok true /\ len pesel = 11) /\
      (entity_type = lit "PL_NIP" ->
       exists nip, _generate_replacement self original entity_type = Ok nip /\
                   validate_nip nip = Ok true /\ len nip = 13) /\
      (entity_type = lit "PL_REGON" ->
       exists regon, _generate_replacement self original entity_type = Ok regon /\
                     validate_regon regon = Ok true /\
                     len regon = if 9 <? len (replace 45 [] (replace 32 [] original))
                                 then 14 else 9)).
  { intros seed Hseed HF.
    split; [| split]; intros ->; unfold _generate_replacement, _create_faker;
      rewrite Hseed, HF; cbn [bind dict_get];
      repeat (case_bool_decide;
              [match goal with
               | H : lit _ = lit _ |- _ => vm_compute in H; discriminate H
               end |]);
      (case_bool_decide; [| congruence]).
  - destruct (generate_pesel_digits HU HR seed) as (ds & Hlen & Hds & ->).
    eexists. split; [reflexivity |]. split; [now apply validate_pesel_digits |].
    rewrite len_render. unfold len. rewrite length_app, Hlen. reflexivity.
  - destruct (generate_nip_digits HR seed true) as (ds & Hlen & Hds & Hne & ->).
    assert (Hall : Forall is_digit (ds ++ [nip_control ds])).
    { apply List.Forall_app. split; [exact Hds |].
      apply List.Forall_cons; [now apply is_digit_mod11 | apply List.Forall_nil]. }
    eexists. split; [reflexivity |]. split.
    + apply (validate_nip_clean HU _ ds Hlen Hds Hne).
      apply clean_nip_grouped; [| exact Hall]. rewrite length_app, Hlen. reflexivity.
    + destruct ds as [| d0 [| d1 [| d2 [| d3 [| d4 [| d5 [| d6 [| d7 [| d8 [| ? ?]]]]]]]]]];
        try discriminate Hlen.
      reflexivity.
  - set (length := if 9 <? len (replace 45 [] (replace 32 [] original)) then 14 else 9).
    assert (Hlength : length = 9 \/ length = 14) by (unfold length; destruct (9 <? _); auto).
    destruct (generate_regon_digits HR seed length Hlength) as (ds & Hlen & Hds & ->).
    eexists. split; [reflexivity |]. split; [now apply validate_regon_digits |].
    rewrite len_render. unfold len in *. rewrite length_app. cbn [List.length]. lia. }
  split.
  - intros id Hid.
    destruct (_compute_seed self original entity_type) as [seed | e] eqn:Hseed;
      [| unfold _generate_replacement in Hid; rewrite Hseed in Hid; discriminate Hid].
    destruct (faker_available (locale self)) eqn:HF;
      [| unfold _generate_replacement, _create_faker in Hid;
         rewrite Hseed, HF in Hid; discriminate Hid].
    destruct (Hgen seed eq_refl eq_refl) as (Hpesel & Hnip & Hregon).
    split; [| split]; intros Htype;
      [destruct (Hpesel Htype) as (id' & Hid' & Hok)
      | destruct (Hnip Htype) as (id' & Hid' & Hok)
      | destruct (Hregon Htype) as (id' & Hid' & Hok)];
      rewrite Hid in Hid'; injection Hid' as <-; exact Hok.
  - intros Htype [seed Hseed] HF.
    destruct (Hgen seed Hseed HF) as (Hpesel & Hnip & Hregon).
    destruct Htype as [<- | [<- | [<- | []]]];
      [destruct (Hpesel eq_refl) as (id & Hid & _)
      | destruct (Hnip eq_refl) as (id & Hid & _)
      | destruct (Hregon eq_refl) as (id & Hid & _)];
      exists id; exact Hid.
Qed.

Lemma sample_regon_replacement :
  @_generate_replacement latin_ucd lcg sample_faker sample_self
    (lit "123-456-785-12347") (lit "PL_REGON")
  = Ok (lit "84834838819696").
Proof. vm_compute. reflexivity. Qed.

Lemma national_id_replacement_validates_witness :
  @validate_regon latin_ucd (lit "84834838819696") = Ok true /\
  len (lit "84834838819696") = 14 /\
  returns (@_generate_replacement latin_ucd lcg sample_faker sample_self
             (lit "123-456-785-12347") (lit "PL_REGON")).
Proof.
  pose proof (@national_id_replacement_validates latin_ucd lcg sample_faker
                latin_ascii_digits lcg_in_range sample_self
                (lit "123-456-785-12347") (lit "PL_REGON")) as [Hvalid Hreturns].
  destruct (Hvalid _ sample_regon_replacement) as (_ & _ & Hregon).
  split; [exact (proj1 (Hregon eq_refl)) |].
  split; [exact (proj2 (Hregon eq_refl)) |].
  apply Hreturns.
  - right. right. left. reflexivity.
  - eexists. vm_compute. reflexivity.
  - reflexivity.
Defined.

(** ** The rewritten text *)

(** The rewriting loop gives the left-to-right substitution of the spans. *)
Lemma apply_replacements_substitute (text : str) (replacements asc : list Replacement.t) :
  Forall (inside_text text) replacements ->
  ForallOrdPairs disjoint_replacements replacements ->
  Permutation asc replacements ->
  StronglySorted (fun a b => Replacement.start a <= Replacement.start b) asc ->
  apply_replacements text replacements = substitute text 0 asc (len text).
Proof.
  intros Hin Hdis Hperm Hasc.
  assert (Hin' : Forall (inside_text text) asc) by now rewrite Hperm.
  assert (Hdis' : ForallOrdPairs disjoint_replacements asc).
  { eapply ForallOrdPairs_perm; [apply disjoint_replacements_sym | | exact Hdis].
    now symmetry. }
  assert (Hdesc : sorted Z.ltb Replacement.start true replacements = rev asc).
  { apply (StronglySorted_unique_strong
             (fun a b => Replacement.start b <= Replacement.start a)).
    - intros x1 x2 Hx1 Hx2 H12 H21.
      assert (Hi1 : In x1 asc).
      { apply list_elem_of_In.
        rewrite Hperm, <- (sorted_perm Z.ltb Replacement.start true). exact Hx1. }
      assert (Hi2 : In x2 asc) by (apply in_rev, list_elem_of_In; exact Hx2).
      rewrite List.Forall_forall in Hin'.
      pose proof (Hin' x1 Hi1) as H1. pose proof (Hin' x2 Hi2) as H2.
      unfold inside_text in H1, H2.
      destruct (ForallOrdPairs_In Hdis' _ _ Hi1 Hi2) as [Heq | [Hd | Hd]];
        [exact Heq | exfalso; apply (Hd (Replacement.start x1)); unfold in_span; lia ..].
    - apply sorted_start_desc.
    - now apply (StronglySorted_rev
                   (fun a b => Replacement.start a <= Replacement.start b)).
    - rewrite sorted_perm, <- Hperm. apply Permutation_rev. }
  unfold apply_replacements. rewrite Hdesc.
  rewrite <- (slice_whole text) at 1. rewrite <- (app_nil_r (slice text None _)).
  rewrite fold_splice.
  - now rewrite rev_involutive, app_nil_r.
  - apply (StronglySorted_rev
             (fun a b => Replacement.end_ a <= Replacement.start b)).
    now apply (ascending_spans_chain text).
  - apply List.Forall_forall. intros r Hr. apply in_rev in Hr.
    rewrite List.Forall_forall in Hin'. specialize (Hin' r Hr).
    unfold inside_text in Hin'. lia.
  - lia.
Qed.

Lemma substitute_split (text : str) (pos : Z) (l1 l2 : list Replacement.t)
    (r : Replacement.t) (hi : Z) :
  substitute text pos (l1 ++ r :: l2) hi
  = substitute text pos l1 (Replacement.start r) ++ Replacement.replacement r
    ++ substitute text (Replacement.end_ r) l2 hi.
Proof.
  revert pos. induction l1 as [| a l1 IH]; intros pos; cbn [app substitute].
  - reflexivity.
  - rewrite IH. now rewrite <- !app_assoc.
Qed.

Lemma len_slice_between (text : str) (a b : Z) :
  0 <= a -> a <= b -> b <= len text -> len (slice text (Some a) (Some b)) = b - a.
Proof.
  intros Ha Hab Hb. rewrite slice_between by lia. unfold len in *.
  rewrite length_firstn, length_skipn. lia.
Qed.

Lemma shift_app (l1 l2 : list Replacement.t) : shift (l1 ++ l2) = shift l1 + shift l2.
Proof.
  unfold shift. induction l1 as [| r l1 IH]; cbn [app fold_right]; [lia |].
  rewrite IH. lia.
Qed.

Lemma len_substitute (text : str) (pos : Z) (l : list Replacement.t) (hi : Z) :
  0 <= pos -> pos <= hi -> hi <= len text ->
  StronglySorted (fun a b => Replacement.end_ a <= Replacement.start b) l ->
  Forall (fun r => pos <= Replacement.start r /\ Replacement.start r <= Replacement.end_ r
                   /\ Replacement.end_ r <= hi) l ->
  len (substitute text pos l hi) = hi - pos + shift l.
Proof.
  revert pos. induction l as [| r l IH]; intros pos Hpos Hhi Hlen Hsorted Hin.
  - cbn [substitute shift fold_right]. rewrite len_slice_between by lia. lia.
  - apply StronglySorted_inv in Hsorted as [Hsorted Hnext].
    apply Forall_cons_1 in Hin as [Hr Hin]. cbv beta in Hr.
    cbn [substitute]. rewrite !len_app, len_slice_between by lia.
    rewrite IH; [| lia | lia | lia | exact Hsorted |].
    + change (shift (r :: l))
        with (len (Replacement.replacement r)
              - (Replacement.end_ r - Replacement.start r) + shift l).
      lia.
    + rewrite List.Forall_forall in Hin, Hnext |- *. intros c Hc.
      specialize (Hin c Hc). specialize (Hnext c Hc). cbv beta in *. lia.
Qed.

Lemma slice_middle {A : Type} (a b c : list A) :
  slice (a ++ b ++ c) (Some (len a)) (Some (len a + len b)) = b.
Proof.
  pose proof (len_nonneg a). pose proof (len_nonneg b). pose proof (len_nonneg c).
  rewrite slice_between by (rewrite !len_app; lia).
  replace (len a + len b - len a) with (len b) by lia. unfold len.
  rewrite !Nat2Z.id, List.skipn_app, Nat.sub_diag, List.skipn_all.
  change (skipn 0 (b ++ c)) with (b ++ c). cbn [app].
  rewrite List.firstn_app, Nat.sub_diag, List.firstn_all. cbn [firstn].
  now rewrite app_nil_r.
Qed.

(** X13: in the rewritten text every replacement stands where its span
    stood, moved by the change of length of the replacements to its left: the
    output between [start + shift] and [start + shift + len(replacement)] is
    the replacement text, and the output is longer than the input by the shift
    of all replacements. *)
Theorem replacement_offsets (text : str) (replacements l1 l2 : list Replacement.t)
    (r : Replacement.t) :
  Forall (inside_text text) replacements ->
  ForallOrdPairs disjoint_replacements replacements ->
  Permutation (l1 ++ r :: l2) replacements ->
  StronglySorted (fun a b => Replacement.start a <= Replacement.start b)
    (l1 ++ r :: l2) ->
  slice (apply_replacements text replacements)
    (Some (Replacement.start r + shift l1))
    (Some (Replacement.start r + shift l1 + len (Replacement.replacement r)))
  = Replacement.replacement r /\
  len (apply_replacements text replacements) = len text + shift replacements.
Proof.
  intros Hin Hdis Hperm Hasc.
  rewrite (apply_replacements_substitute text replacements (l1 ++ r :: l2))
    by assumption.
  assert (Hin' : Forall (inside_text text) (l1 ++ r :: l2)) by now rewrite Hperm.
  assert (Hchain : StronglySorted
                     (fun a b => Replacement.end_ a <= Replacement.start b)
                     (l1 ++ r :: l2)).
  { apply (ascending_spans_chain text); [exact Hin' | | exact Hasc].
    eapply ForallOrdPairs_perm; [apply disjoint_replacements_sym | | exact Hdis].
    now symmetry. }
  assert (Hshift : shift replacements = shift (l1 ++ r :: l2)).
  { clear -Hperm. induction Hperm as [| x l l' _ IH | x y l | l l' l'' _ IH1 _ IH2].
    - reflexivity.
    - unfold shift in *. cbn [fold_right]. lia.
    - unfold shift. cbn [fold_right]. lia.
    - lia. }
  pose proof (len_nonneg text) as Htext.
  split.
  - rewrite substitute_split.
    apply StronglySorted_app in Hchain as (Hcross & Hchain1 & _).
    apply List.Forall_app in Hin' as [Hin1 Hinr].
    apply Forall_cons_1 in Hinr as [Hr _]. unfold inside_text in Hr.
    assert (Hlen1 : len (substitute text 0 l1 (Replacement.start r))
                    = Replacement.start r + shift l1).
    { rewrite len_substitute; [lia | lia | lia | lia | exact Hchain1 |].
      rewrite List.Forall_forall in Hin1 |- *. intros c Hc.
      specialize (Hin1 c Hc). unfold inside_text in Hin1.
      specialize (Hcross c r ltac:(now apply list_elem_of_In) ltac:(left)).
      cbv beta in *. lia. }
    rewrite <- Hlen1. apply slice_middle.
  - rewrite Hshift, len_substitute; [lia | lia | lia | lia | exact Hchain |].
    rewrite List.Forall_forall in Hin' |- *. intros c Hc.
    specialize (Hin' c Hc). unfold inside_text in Hin'. lia.
Qed.

Lemma replacement_offsets_witness :
  slice (lit "Tadeusz Elwart 55032434583 Tadeusz Elwart") (Some 15) (Some 26)
  = lit "55032434583".
Proof.
  refine (proj1 (replacement_offsets (lit "Jan 123 JAN")
    [Replacement.mk 4 7 (lit "123") (lit "55032434583") (lit "PL_PESEL") (9 # 10);
     Replacement.mk 0 3 (lit "Jan") (lit "Tadeusz Elwart") (lit "PERSON") (1 # 2);
     Replacement.mk 8 11 (lit "JAN") (lit "Tadeusz Elwart") (lit "PERSON") (1 # 2)]
    [Replacement.mk 0 3 (lit "Jan") (lit "Tadeusz Elwart") (lit "PERSON") (1 # 2)]
    [Replacement.mk 8 11 (lit "JAN") (lit "Tadeusz Elwart") (lit "PERSON") (1 # 2)]
    (Replacement.mk 4 7 (lit "123") (lit "55032434583") (lit "PL_PESEL") (9 # 10))
    _ _ _ _)).
  - repeat (apply List.Forall_cons; [unfold inside_text, len, lit; simpl; lia |]).
    apply List.Forall_nil.
  - repeat (apply FOP_cons;
            [repeat (apply List.Forall_cons;
                     [unfold disjoint_replacements, in_span; simpl; lia |]);
             apply List.Forall_nil |]).
    apply FOP_nil.
  - apply perm_swap.
  - repeat (apply SSorted_cons;
            [| repeat (apply List.Forall_cons; [simpl; lia |]); apply List.Forall_nil]).
    apply SSorted_nil.
Defined.

(** ** The result of a run *)

Lemma ForallOrdPairs_map {A B : Type} (f : A -> B) (R : B -> B -> Prop) (l : list A) :
  ForallOrdPairs R (List.map f l) -> ForallOrdPairs (fun a b => R (f a) (f b)) l.
Proof.
  induction l as [| x l IH]; intros Hall; [constructor |].
  cbn in Hall. inversion Hall as [| ? ? Hx Hl]; subst. constructor; [| now apply IH].
  rewrite List.Forall_forall in Hx |- *. intros y Hy. apply Hx. now apply in_map.
Qed.

Section ResultOfRun.
Context {U : UnicodeData} {R : PyRandom} {F : Faker} {E : AnalyzerEngine}.
Variable self : Pseudonymizer.

Lemma accepted_among_detected (text : str) (d : RecognizerResult.t) :
  In d (analyze self text) -> In d (analyzer_analyze text (language self)).
Proof.
  unfold analyze. rewrite filter_overlapping_scan. intros Hd.
  destruct (scan_extends (by_score_desc (analyzer_analyze text (language self))) [])
    as (added & Hout & Hsub).
  rewrite Hout in Hd. cbn [app] in Hd.
  apply list_elem_of_In. rewrite <- (by_score_desc_perm _).
  eapply elem_of_sublist; [| exact Hsub]. now apply list_elem_of_In.
Qed.

Lemma result_disjoint (text : str) (res : PseudonymizationResult.t) :
  pseudonymize_with_details self text = Ok res ->
  ForallOrdPairs disjoint_replacements (PseudonymizationResult.replacements res).
Proof.
  intros Hres.
  apply pseudonymize_with_details_Ok in Hres as (_ & _ & Hmap & _ & _).
  apply (ForallOrdPairs_map detection_of disjoint_spans).
  rewrite Hmap. unfold analyze. rewrite filter_overlapping_scan.
  apply scan_disjoint. constructor.
Qed.

Lemma result_inside (text : str) (res : PseudonymizationResult.t) :
  Forall (detection_inside text) (analyzer_analyze text (language self)) ->
  pseudonymize_with_details self text = Ok res ->
  Forall (inside_text text) (PseudonymizationResult.replacements res).
Proof.
  intros Hdet Hres.
  apply pseudonymize_with_details_Ok in Hres as (_ & _ & Hmap & _ & _).
  apply List.Forall_forall. intros r Hr.
  assert (Hd : In (detection_of r) (analyze self text))
    by (rewrite <- Hmap; now apply in_map).
  apply accepted_among_detected in Hd.
  rewrite List.Forall_forall in Hdet. exact (Hdet _ Hd).
Qed.

(** X14: the replacements of a result have pairwise disjoint spans. *)
Theorem result_replacements_disjoint (text : str) (res : PseudonymizationResult.t) :
  pseudonymize_with_details self text = Ok res ->
  ForallOrdPairs disjoint_replacements (PseudonymizationResult.replacements res).
Proof.
  intros Hres.
  apply pseudonymize_with_details_Ok in Hres as (_ & _ & Hmap & _ & _).
  apply (ForallOrdPairs_map detection_of disjoint_spans).
  rewrite Hmap. unfold analyze. rewrite filter_overlapping_scan.
  apply scan_disjoint. constructor.
Qed.

(** X15: when the detector reports non-empty spans inside the text, the
    pseudonymized text is the input in which the span of every accepted
    detection is replaced by its replacement text and everything else is kept
    in order; [asc] lists the replacements of the result from left to
    right. *)
Theorem pseudonymized_text_substitutes (text : str) (res : PseudonymizationResult.t)
    (asc : list Replacement.t) :
  Forall (detection_inside text) (analyzer_analyze text (language self)) ->
  pseudonymize_with_details self text = Ok res ->
  Permutation asc (PseudonymizationResult.replacements res) ->
  StronglySorted (fun a b => Replacement.start a <= Replacement.start b) asc ->
  PseudonymizationResult.pseudonymized_text res = substitute text 0 asc (len text) /\
  pseudonymize self text = Ok (substitute text 0 asc (len text)).
Proof.
  intros Hdet Hres Hperm Hasc.
  pose proof (result_inside text res Hdet Hres) as Hin.
  pose proof (result_disjoint text res Hres) as Hdis.
  pose proof (pseudonymize_with_details_Ok self text res Hres) as (_ & Htext & _).
  assert (Heq : PseudonymizationResult.pseudonymized_text res
                = substitute text 0 asc (len text)).
  { rewrite Htext. now apply apply_replacements_substitute. }
  split; [exact Heq |]. unfold pseudonymize. rewrite Hres. cbn [bind]. now rewrite Heq.
Qed.

(** X16: [entities_found] counts the accepted detections, which are never
    more than the detector reported, and [entity_types] holds exactly the
    entity types of the accepted detections. *)
Theorem result_counts (text : str) (res : PseudonymizationResult.t) :
  pseudonymize_with_details self text = Ok res ->
  PseudonymizationResult.entities_found res = len (analyze self text) /\
  PseudonymizationResult.entities_found res
  <= len (analyzer_analyze text (language self)) /\
  (forall entity_type,
      entity_type ∈ PseudonymizationResult.entity_types res <->
      exists d, In d (analyze self text) /\ RecognizerResult.entity_type d = entity_type).
Proof.
  intros Hres.
  apply pseudonymize_with_details_Ok in Hres as (_ & _ & Hmap & _ & _).
  assert (Hcount : PseudonymizationResult.entities_found res = len (analyze self text)).
  { unfold PseudonymizationResult.entities_found, len.
    now rewrite <- Hmap, length_map. }
  split; [exact Hcount |]. split.
  - rewrite Hcount. unfold analyze. rewrite filter_overlapping_scan.
    destruct (scan_extends (by_score_desc (analyzer_analyze text (language self))) [])
      as (added & -> & Hsub).
    cbn [app]. apply sublist_length in Hsub.
    pose proof (Permutation_length (by_score_desc_perm
                  (analyzer_analyze text (language self)))) as Hperm.
    unfold len. lia.
  - intros entity_type. unfold PseudonymizationResult.entity_types.
    rewrite elem_of_list_to_set, list_elem_of_In, <- Hmap. split.
    + intros Hin. apply in_map_iff in Hin as (r & Hr & Hin).
      exists (detection_of r). split; [now apply in_map | exact Hr].
    + intros (d & Hd & Ht). apply in_map_iff in Hd as (r & <- & Hr).
      apply in_map_iff. exists r. split; [exact Ht | exact Hr].
Qed.

(** What one pass of the preparing loop does to the cache. *)
Lemma prepare_step_cache (text : str) (replacements : list Replacement.t)
    (mapping : gmap (str * str) str) (d : RecognizerResult.t)
    (st' : list Replacement.t * gmap (str * str) str) :
  prepare_step self text (replacements, mapping) d = Ok st' ->
  exists r mapping',
    st' = (replacements ++ [r], mapping') /\
    (mapping !! key_of r = None ->
     fresh_replacement self (Replacement.original r) (Replacement.entity_type r)
     = Ok (Replacement.replacement r)) /\
    (forall k, is_Some (mapping' !! k) -> is_Some (mapping !! k) \/ k = key_of r).
Proof.
  unfold prepare_step.
  set (original := slice text _ _).
  set (key := (lower (strip original), RecognizerResult.entity_type d)).
  destruct (mapping !! key) as [v |] eqn:Hkey.
  - cbn [bind]. rewrite Hkey. cbn [bind]. intros [= <-].
    eexists _, mapping. split; [reflexivity |]. split.
    + intros Hnone. change (mapping !! key = None) in Hnone. congruence.
    + auto.
  - unfold fresh_replacement.
    destruct (_generate_replacement self original _) as [generated | e] eqn:Hgen;
      [| discriminate].
    cbn [bind].
    destruct (if bool_decide _ then _ else _) as [cased | e] eqn:Hcased; [| discriminate].
    cbn [bind]. rewrite lookup_insert_eq. cbn [bind]. intros [= <-].
    eexists _, (<[key := cased]> mapping). split; [reflexivity |]. split.
    + intros _. cbn. rewrite Hgen. cbn [bind]. exact Hcased.
    + intros k Hk.
      match goal with |- _ \/ k = ?x => change x with key end.
      destruct (decide (key = k)) as [<- | Hne]; [now right |].
      left. now rewrite lookup_insert_ne in Hk.
Qed.

Lemma for_each_first_occurrence (text : str) (results : list RecognizerResult.t)
    (replacements replacements' : list Replacement.t)
    (mapping mapping' : gmap (str * str) str) :
  for_each results (prepare_step self text) (replacements, mapping)
  = Ok (replacements', mapping') ->
  (forall k, is_Some (mapping !! k) -> exists r, In r replacements /\ key_of r = k) ->
  (forall l1 r l2, replacements = l1 ++ r :: l2 ->
     (forall r', In r' l1 -> key_of r' <> key_of r) ->
     fresh_replacement self (Replacement.original r) (Replacement.entity_type r)
     = Ok (Replacement.replacement r)) ->
  forall l1 r l2, replacements' = l1 ++ r :: l2 ->
    (forall r', In r' l1 -> key_of r' <> key_of r) ->
    fresh_replacement self (Replacement.original r) (Replacement.entity_type r)
    = Ok (Replacement.replacement r).
Proof.
  revert replacements mapping.
  induction results as [| d results IH]; intros replacements mapping Hrun Hkeys Hfirst.
  - cbn in Hrun. injection Hrun as <- <-. exact Hfirst.
  - cbn [for_each] in Hrun.
    destruct (prepare_step self text (replacements, mapping) d) as [st' | e] eqn:Hstep;
      [| discriminate].
    cbn [bind] in Hrun.
    apply prepare_step_cache in Hstep as (rn & mapping1 & -> & Hfresh & Hgrow).
    apply (IH _ _ Hrun).
    + intros k Hk. destruct (Hgrow k Hk) as [Hold | ->].
      * destruct (Hkeys k Hold) as (r0 & Hr0 & Hk0).
        exists r0. split; [apply in_app_iff; now left | exact Hk0].
      * exists rn. split; [apply in_app_iff; right; now left | reflexivity].
    + intros l1 r l2 Hsplit Hnone.
      destruct l2 as [| y l2] using rev_ind.
      * apply app_inj_tail in Hsplit as [-> ->]. apply Hfresh.
        destruct (mapping !! key_of r) as [v |] eqn:Hv; [| reflexivity].
        destruct (Hkeys (key_of r) ltac:(eauto)) as (r0 & Hr0 & Hk0).
        exfalso. exact (Hnone r0 Hr0 Hk0).
      * clear IHl2. rewrite app_comm_cons, app_assoc in Hsplit.
        apply app_inj_tail in Hsplit as [-> _]. now apply (Hfirst l1 r l2).
Qed.

(** X17: the first accepted detection of a key decides the replacement of
    that key: its record holds the value generated from its own substring,
    in the casing of that substring for the case-sensitive entity types.
    Later detections with the key reuse it, whatever their own casing. *)
Theorem first_occurrence_decides (text : str) (res : PseudonymizationResult.t)
    (l1 l2 : list Replacement.t) (r : Replacement.t) :
  pseudonymize_with_details self text = Ok res ->
  PseudonymizationResult.replacements res = l1 ++ r :: l2 ->
  (forall r', In r' l1 -> key_of r' <> key_of r) ->
  fresh_replacement self (Replacement.original r) (Replacement.entity_type r)
  = Ok (Replacement.replacement r) /\
  (forall r', In r' l2 -> key_of r' = key_of r ->
     Replacement.replacement r' = Replacement.replacement r).
Proof.
  intros Hres Hsplit Hnone. split.
  - unfold pseudonymize_with_details in Hres.
    destruct (for_each _ _ _) as [[replacements mapping] | e] eqn:Hrun; [| discriminate].
    cbn [bind] in Hres. injection Hres as <-. cbn in Hsplit.
    apply (for_each_first_occurrence _ _ _ _ _ _ Hrun) with (l1 := l1) (l2 := l2);
      try assumption.
    + intros k Hk. rewrite lookup_empty in Hk. now destruct Hk.
    + intros [| ? ?] ? ? Hnil; discriminate Hnil.
  - intros r' Hr' Hkey.
    apply pseudonymize_with_details_Ok in Hres as (_ & _ & _ & _ & Hsame).
    apply Hsame; [| | exact Hkey]; rewrite Hsplit, in_app_iff; cbn; tauto.
Qed.

End ResultOfRun.

Lemma result_replacements_disjoint_witness :
  ForallOrdPairs disjoint_replacements (PseudonymizationResult.replacements sample_result).
Proof.
  exact (@result_replacements_disjoint latin_ucd lcg sample_faker
           (fixed_analyzer sample_detections) sample_self (lit "Jan 123 JAN")
           sample_result sample_run).
Defined.

Lemma pseudonymized_text_substitutes_witness :
  @pseudonymize latin_ucd lcg sample_faker (fixed_analyzer sample_detections)
    sample_self (lit "Jan 123 JAN")
  = Ok (lit "Tadeusz Elwart 55032434583 Tadeusz Elwart").
Proof.
  refine (proj2 (@pseudonymized_text_substitutes latin_ucd lcg sample_faker
           (fixed_analyzer sample_detections) sample_self (lit "Jan 123 JAN")
           sample_result
           [Replacement.mk 0 3 (lit "Jan") (lit "Tadeusz Elwart") (lit "PERSON") (1 # 2);
            Replacement.mk 4 7 (lit "123") (lit "55032434583") (lit "PL_PESEL") (9 # 10);
            Replacement.mk 8 11 (lit "JAN") (lit "Tadeusz Elwart") (lit "PERSON") (1 # 2)]
           _ sample_run _ _)).
  - repeat (apply List.Forall_cons;
            [unfold detection_inside, len, lit; simpl; lia |]).
    apply List.Forall_nil.
  - apply perm_swap.
  - repeat (apply SSorted_cons;
            [| repeat (apply List.Forall_cons; [simpl; lia |]); apply List.Forall_nil]).
    apply SSorted_nil.
Defined.

Lemma result_counts_witness :
  PseudonymizationResult.entities_found sample_result = 3 /\
  PseudonymizationResult.entities_found sample_result <= 4.
Proof.
  destruct (@result_counts latin_ucd lcg sample_faker (fixed_analyzer sample_detections)
              sample_self (lit "Jan 123 JAN") sample_result sample_run)
    as (Hcount & Hle & _).
  split; [exact Hcount | exact Hle].
Defined.

Lemma first_occurrence_decides_witness :
  @fresh_replacement latin_ucd lcg sample_faker sample_self (lit "Jan") (lit "PERSON")
  = Ok (lit "Tadeusz Elwart").
Proof.
  refine (proj1 (@first_occurrence_decides latin_ucd lcg sample_faker
           (fixed_analyzer sample_detections) sample_self (lit "Jan 123 JAN")
           sample_result
           [Replacement.mk 4 7 (lit "123") (lit "55032434583") (lit "PL_PESEL") (9 # 10)]
           [Replacement.mk 8 11 (lit "JAN") (lit "Tadeusz Elwart") (lit "PERSON") (1 # 2)]
           (Replacement.mk 0 3 (lit "Jan") (lit "Tadeusz Elwart") (lit "PERSON") (1 # 2))
           sample_run eq_refl _)).
  intros r' [<- | []]. vm_compute. discriminate.
Defined.
